(** * nocturn: a shallow embedding of [nocturn.c]

    The C program bridges the Novation Nocturn control surface (USB) to ALSA
    MIDI.  This development embeds the protocol decoder ([process],
    [process_buffer], [event]), the hex-string helper ([digit], [byte],
    [send_hexdata]), the connection set-up ([usb_connect], [nocturn_init]),
    the polling loop ([receive_loop]) and the reconnect loop of [main], and
    states the properties of the design document against them.

    Conventions.  A C [int] is a [Z] (no value here comes near the 32-bit
    limits); a [uint8_t] is a [Z] reduced modulo 256 where the C code stores
    into one; a buffer together with its length is a [list Z]; calls into
    libusb, ALSA and libc are answered by explicit environment values and are
    recorded as [effect]s in the order the code issues them. *)

From Stdlib Require Import ZArith List String Ascii Bool Lia.
Import ListNotations.
Local Open Scope Z_scope.

(** ** Constants from the system headers *)

(** [libusb.h]: enum libusb_error. *)
Definition LIBUSB_ERROR_NO_DEVICE : Z := -4.
Definition LIBUSB_ERROR_OTHER : Z := -99.

(** [poll.h]. *)
Definition POLLIN : Z := 1.

(** [libusb.h]: enum libusb_transfer_status. *)
Inductive transfer_status :=
| LIBUSB_TRANSFER_COMPLETED
| LIBUSB_TRANSFER_ERROR
| LIBUSB_TRANSFER_TIMED_OUT
| LIBUSB_TRANSFER_CANCELLED
| LIBUSB_TRANSFER_STALL
| LIBUSB_TRANSFER_NO_DEVICE
| LIBUSB_TRANSFER_OVERFLOW.

(** Storing an [int] into a [uint8_t]. *)
Definition uint8 (z : Z) : Z := z mod 256.

(** ** Observable calls *)

Inductive effect :=
| Print_status (status chan data1 data2 : Z)
    (* printf("Status %d (chan %d): %d,%d\n", ...) *)
| Print_couldnt_send_midi
| Midi_send_control_change (channel cc value : Z)
| Midi_input
| Interrupt_transfer (endpoint : Z) (buf : list Z)
| Submit_transfer
| Poll (nfds : nat) (timeout_ms : Z)
| Handle_events_timeout
| Free_transfer.

Definition is_send (e : effect) : bool :=
  match e with Midi_send_control_change _ _ _ => true | _ => false end.

Definition is_print_status (e : effect) : bool :=
  match e with Print_status _ _ _ _ => true | _ => false end.

Definition is_midi_input (e : effect) : bool :=
  match e with Midi_input => true | _ => false end.

Definition is_submit (e : effect) : bool :=
  match e with Submit_transfer => true | _ => false end.

(** ** Protocol decoder *)

Module Codec.

(** [enum midi_state]. *)
Inductive midi_state := STATUS | DATA1 | DATA2.

(** The four [static] variables of [process]. *)
Record decoder := mkDecoder {
  state : midi_state;
  status : Z;
  chan : Z;
  data1 : Z
}.

(** Their initial values; [data1] has no initialiser and, being static,
    starts at zero. *)
Definition decoder_init : decoder :=
  {| state := STATUS; status := -1; chan := -1; data1 := 0 |}.

(** One call [event(status, chan, data1, data2)] made by [process]. *)
Record Event := mkEvent {
  ev_status : Z;
  ev_chan : Z;
  ev_data1 : Z;
  ev_data2 : Z
}.

Section Sink.

(** [CC72_TEST] is the preprocessor switch of [event]; it is not defined in
    the file, so the build uses [false].  [midi_send_control_change] is the
    return value of the ALSA helper for a given call. *)
Variable CC72_TEST : bool.
Variable midi_send_control_change : Z -> Z -> Z -> Z.

Definition send (channel cc value : Z) : list effect :=
  Midi_send_control_change channel cc value ::
  (if midi_send_control_change channel cc value <? 0
   then [Print_couldnt_send_midi] else []).

(** [void event(int status, int chan, int data1, int data2)]. *)
Definition event (status chan data1 data2 : Z) : list effect :=
  if status =? 176 then
    (if (data1 <? 96) || (data1 >? 103)
     then [Print_status status chan data1 data2] else [])
    ++
    (if CC72_TEST then
       (if data1 =? 72 then send 1 69 data2 else [])
     else
       send 1 data1 data2)
  else [].

Definition dispatch (e : Event) : list effect :=
  event (ev_status e) (ev_chan e) (ev_data1 e) (ev_data2 e).

End Sink.

(** [void process(int data)]: the new values of the statics and the call to
    [event], if one is made. *)
Definition process (st : decoder) (data : Z) : decoder * option Event :=
  let data := Z.land data 255 in
  if negb (Z.land data 128 =? 0) then
    ({| state := DATA1;
        status := Z.land data 240;
        chan := Z.land data 15;
        data1 := data1 st |}, None)
  else
    match state st with
    | STATUS => (st, None)
    | DATA1 =>
        ({| state := DATA2; status := status st; chan := chan st;
            data1 := data |}, None)
    | DATA2 =>
        ({| state := DATA1; status := status st; chan := chan st;
            data1 := data1 st |},
         Some (mkEvent (status st) (chan st) (data1 st) data))
    end.

Definition emitted (o : option Event) : list Event :=
  match o with Some e => [e] | None => [] end.

(** [void process_buffer(const char *data, int len)]: the buffer and its
    length are the list; the result is the decoder afterwards and the calls
    to [event] in order. *)
Fixpoint process_buffer (st : decoder) (data : list Z)
  : decoder * list Event :=
  match data with
  | [] => (st, [])
  | d :: rest =>
      let '(st1, o) := process st d in
      let '(st2, evs) := process_buffer st1 rest in
      (st2, emitted o ++ evs)
  end.

(** The decoder states after each byte of a buffer. *)
Fixpoint states_after (st : decoder) (data : list Z) : list midi_state :=
  match data with
  | [] => []
  | d :: rest =>
      let st1 := fst (process st d) in
      state st1 :: states_after st1 rest
  end.

(** Byte classes of the wire format: a status byte has bit 7 set, a data
    byte has it clear. *)
Definition status_byte (b : Z) : Prop := 128 <= b <= 255.
Definition data_byte (b : Z) : Prop := 0 <= b <= 127.

(** The two data bytes of one message. *)
Definition pair_bytes (p : Z * Z) : list Z := [fst p; snd p].

(** The event a status byte and a pair of data bytes stand for. *)
Definition message (s : Z) (p : Z * Z) : Event :=
  mkEvent (Z.land s 240) (Z.land s 15) (fst p) (snd p).

(** The ranges of the four arguments of a call to [event]. *)
Definition event_ok (e : Event) : bool :=
  (128 <=? ev_status e) && (ev_status e <=? 240)
  && (ev_status e mod 16 =? 0)
  && (0 <=? ev_chan e) && (ev_chan e <=? 15)
  && (0 <=? ev_data1 e) && (ev_data1 e <=? 127)
  && (0 <=? ev_data2 e) && (ev_data2 e <=? 127).

(** What the statics hold once a status byte has been seen. *)
Definition decoder_ok (d : decoder) : Prop :=
  (state d = STATUS \/
   (128 <= status d <= 240 /\ status d mod 16 = 0 /\ 0 <= chan d <= 15))
  /\ (state d = DATA2 -> 0 <= data1 d <= 127).

Definition is_control_change (e : Event) : bool := ev_status e =? 176.

(** The call of the MIDI sink that forwards an event. *)
Definition forwarded (e : Event) : effect :=
  Midi_send_control_change 1 (ev_data1 e) (ev_data2 e).

End Codec.

(** ** Hexadecimal payload strings *)

Module Hex.

(** The value of a [char] read as [uint8_t]. *)
Definition code (c : ascii) : Z := Z.of_nat (nat_of_ascii c).

(** [int digit(uint8_t hexdigit)]. *)
Definition digit (hexdigit : Z) : Z :=
  hexdigit - code "0"
  - (if hexdigit >? code "9" then code "a" - (code "9" + 1) else 0).

(** [int byte(const char *string)], on [string[0]] and [string[1]]. *)
Definition byte (c0 c1 : ascii) : Z :=
  Z.lor (Z.shiftl (digit (code c0)) 4) (digit (code c1)).

(** The loop of [send_hexdata] filling [uint8_t buf[80]]: [room] is the space
    left in [buf].  [None] stands for the executions C leaves undefined:
    writing past [buf], or stepping [string += 2] over the terminator of a
    string of odd length. *)
Fixpoint hex_fill (room : nat) (s : string) {struct s} : option (list Z) :=
  match s with
  | EmptyString => Some []
  | String c0 rest =>
      if code c0 =? 0 then Some [] else
      match room, rest with
      | O, _ => None
      | S _, EmptyString => None
      | S room', String c1 rest' =>
          if code c1 =? 0 then None
          else option_map (cons (uint8 (byte c0 c1))) (hex_fill room' rest')
      end
  end.

Definition hexdata_buf (s : string) : option (list Z) := hex_fill 80 s.

(** [send_data] and [send_hexdata]: [interrupt_transfer] is the status
    [libusb_interrupt_transfer] returns for an endpoint and a payload. *)
Definition send_data (interrupt_transfer : Z -> list Z -> Z)
  (endpoint : Z) (buf : list Z) : Z * list effect :=
  (interrupt_transfer endpoint buf, [Interrupt_transfer endpoint buf]).

Definition send_hexdata (interrupt_transfer : Z -> list Z -> Z)
  (endpoint : Z) (s : string) : option (Z * list effect) :=
  option_map (send_data interrupt_transfer endpoint) (hexdata_buf s).

(** The character the payload strings use for a nibble value [0..15]. *)
Definition hexchar (v : Z) : ascii :=
  ascii_of_nat
    (Z.to_nat (if v <? 10 then code "0" + v else code "a" + (v - 10))).

Fixpoint hexstring (nibbles : list (Z * Z)) : string :=
  match nibbles with
  | [] => EmptyString
  | (h, l) :: rest => String (hexchar h) (String (hexchar l) (hexstring rest))
  end.

Definition nibble (v : Z) : Prop := 0 <= v < 16.

Definition nibbles_ok (p : Z * Z) : Prop := nibble (fst p) /\ nibble (snd p).

(** A C string proper: no NUL before its end. *)
Fixpoint nul_free (s : string) : bool :=
  match s with
  | EmptyString => true
  | String c rest => negb (code c =? 0) && nul_free rest
  end.

End Hex.

(** ** Connecting to the device *)

Module Usb.

(** [struct usb_info]; [devh] is [None] for a null handle. *)
Record usb_info := mkUsbInfo {
  devh : option Z;
  rx_ep : Z;
  tx_ep : Z
}.

Definition vid_novation : Z := 0x1235.
Definition pid_nocturn : Z := 0x000a.

(** What libusb answers during one call of [usb_connect]. *)
Record usb_world := mkUsbWorld {
  open_device_with_vid_pid : Z -> Z -> option Z;
  get_device : Z -> option Z;
  get_device_descriptor : Z;
  (* status, and bEndpointAddress of endpoint[0] and endpoint[1] of
     interface[0].altsetting[0] of the configuration with that index *)
  get_config_descriptor : Z -> Z * (Z * Z);
  set_configuration : Z -> Z;
  claim_interface : Z -> Z
}.

(** The test [tx_ep < 0 || rx_ep < 0] on the two [uint8_t] locals, which are
    promoted to [int] for the comparison. *)
Definition endpoints_unset (rx_ep tx_ep : Z) : bool :=
  (tx_ep <? 0) || (rx_ep <? 0).

(** [int usb_connect(libusb_context *ctx, struct usb_info *usb_info)]:
    the status returned and the contents of [*usb_info] afterwards. *)
Definition usb_connect (w : usb_world) (info : usb_info) : Z * usb_info :=
  let rx := uint8 (-1) in
  let tx := uint8 (-1) in
  match open_device_with_vid_pid w vid_novation pid_nocturn with
  | None => (LIBUSB_ERROR_NO_DEVICE, info)
  | Some h =>
      match get_device w h with
      | None => (LIBUSB_ERROR_NO_DEVICE, info)
      | Some _ =>
          let stat := get_device_descriptor w in
          if stat <? 0 then (stat, info) else
          let '(stat, (ep0, ep1)) := get_config_descriptor w 1 in
          if stat <? 0 then (stat, info) else
          let ep0 := uint8 ep0 in
          let ep1 := uint8 ep1 in
          let '(rx, tx) :=
            if negb (Z.land ep0 128 =? 0) then (ep0, tx) else (rx, ep0) in
          let '(rx, tx) :=
            if negb (Z.land ep1 128 =? 0) then (ep1, tx) else (rx, ep1) in
          if endpoints_unset rx tx then (LIBUSB_ERROR_NO_DEVICE, info) else
          let stat := set_configuration w 1 in
          if stat <? 0 then (stat, info) else
          let stat := claim_interface w 0 in
          if stat <? 0 then (stat, info) else
          (0, {| devh := Some h; rx_ep := rx; tx_ep := tx |})
      end
  end.

(** [int nocturn_init(struct usb_info *usb_info)] with the blocks that are
    compiled in ([#if 1]); [None] only if a payload string were malformed. *)
Definition nocturn_init (interrupt_transfer : Z -> list Z -> Z)
  (info : usb_info) : option (Z * list effect) :=
  let send := Hex.send_hexdata interrupt_transfer (tx_ep info) in
  match send "b04800"%string with
  | None => None
  | Some (stat, t1) =>
      if stat <? 0 then Some (stat, t1) else
      match send "b04060"%string with
      | None => None
      | Some (stat, t2) =>
          if stat <? 0 then Some (stat, t1 ++ t2) else
          match send "b05130"%string, send "b05030"%string with
          | Some (_, t3), Some (_, t4) => Some (0, t1 ++ t2 ++ t3 ++ t4)
          | _, _ => None
          end
      end
  end.

(** [struct usb_info usb_info = { NULL, -1, -1 };] *)
Definition initial_info : usb_info :=
  {| devh := None; rx_ep := uint8 (-1); tx_ep := uint8 (-1) |}.

(** A device that is plugged in: every libusb call succeeds, and the two
    endpoint addresses of configuration 1 are [ep0] and [ep1]. *)
Definition plugged_world (ep0 ep1 : Z) : usb_world :=
  {| open_device_with_vid_pid := fun _ _ => Some 1;
     get_device := fun _ => Some 2;
     get_device_descriptor := 0;
     get_config_descriptor := fun _ => (0, (ep0, ep1));
     set_configuration := fun _ => 0;
     claim_interface := fun _ => 0 |}.

(** Every libusb call of [usb_connect] reports success. *)
Definition all_calls_succeed (w : usb_world) : Prop :=
  exists h dev,
    open_device_with_vid_pid w vid_novation pid_nocturn = Some h
    /\ get_device w h = Some dev
    /\ 0 <= get_device_descriptor w
    /\ 0 <= fst (get_config_descriptor w 1)
    /\ 0 <= set_configuration w 1
    /\ 0 <= claim_interface w 0.

(** The four writes of [nocturn_init]: ring 1 value and mode, speed dial
    mode and value. *)
Definition ring1_value : list Z := [0xB0; 0x48; 0x00].
Definition ring1_mode : list Z := [0xB0; 0x40; 0x60].
Definition dial_mode : list Z := [0xB0; 0x51; 0x30].
Definition dial_value : list Z := [0xB0; 0x50; 0x30].

End Usb.

(** ** The polling loop *)

Module Reactor.

Import Codec.

(** [struct pollfd]; also used for the [fd] and [events] of a
    [struct libusb_pollfd]. *)
Record pollfd := mkPollfd {
  fd : Z;
  events : Z;
  revents : Z
}.

Definition RX_BUFSIZE : nat := 10.
Definition POLLFDS : nat := 10.

(** What the outside world answers during one pass of the [while (1)] body. *)
Record loop_env := mkLoopEnv {
  usb_pollfds : list pollfd;        (* libusb_get_pollfds *)
  next_timeout : Z;                 (* libusb_get_next_timeout *)
  tv_sec : Z;
  tv_usec : Z;
  poll_stat : Z;                    (* poll *)
  poll_revents : nat -> Z;          (* revents written by poll, per slot *)
  (* the outcome libusb has for the transfer when events are handled:
     transfer->status and buffer[0 .. actual_length) *)
  completion : option (transfer_status * list Z);
  submit_stat : Z                   (* libusb_submit_transfer *)
}.

(** Places in [receive_loop]. *)
Inductive place :=
| Start        (* before the first libusb_submit_transfer *)
| Top          (* head of the while body *)
| Polled       (* after poll, before libusb_handle_events_timeout *)
| Handled      (* after the events pass, before the MIDI dispatch *)
| Dispatched   (* before the resubmit test *)
| Exited.      (* after exit_ml *)

(** The locals of [receive_loop], the decoder statics, and [outstanding]:
    the number of transfers libusb holds submitted and not yet completed. *)
Record reactor := mkReactor {
  pc : place;
  outstanding : nat;
  resubmit : Z;
  stat : Z;
  dec : decoder;
  pollfds : list pollfd;
  usbfds : nat
}.

(** [resubmit] and [stat] have no initialiser: [r0] and [s0] are whatever the
    stack holds. *)
Definition reactor_init (r0 s0 : Z) (d : decoder) : reactor :=
  {| pc := Start; outstanding := 0; resubmit := r0; stat := s0; dec := d;
     pollfds := []; usbfds := 0 |}.

(** libusb: a transfer is handed over when [libusb_submit_transfer]
    returns 0. *)
Definition accepted (submit : Z) : nat := if submit =? 0 then 1%nat else 0%nat.

Section Loop.

Variable CC72_TEST : bool.
Variable midi_send_control_change : Z -> Z -> Z -> Z.
(** [midipolls->pollfds[0 .. npfd)]. *)
Variable midipolls : list pollfd.

(** [void rx_cb(struct libusb_transfer *transfer)]: the value stored through
    [user_data], the decoder afterwards and the calls made. *)
Definition rx_cb (d : decoder) (ts : transfer_status) (received : list Z)
  : Z * decoder * list effect :=
  match ts with
  | LIBUSB_TRANSFER_COMPLETED =>
      let '(d', evs) := process_buffer d received in
      (1, d', flat_map (dispatch CC72_TEST midi_send_control_change) evs)
  | _ => (1, d, [])
  end.

(** The two [for] loops that fill [pollfds]. *)
Definition usb_part (e : loop_env) : list pollfd :=
  firstn POLLFDS (usb_pollfds e).

Definition midi_part (e : loop_env) : list pollfd :=
  firstn (POLLFDS - List.length (usb_part e)) midipolls.

(** [poll] stores [revents] in every slot. *)
Fixpoint polled (rev : nat -> Z) (i : nat) (l : list pollfd) : list pollfd :=
  match l with
  | [] => []
  | p :: rest =>
      {| fd := fd p; events := events p; revents := rev i |}
        :: polled rev (S i) rest
  end.

Definition readable (p : pollfd) : bool :=
  negb (Z.land (revents p) POLLIN =? 0).

(** [for (i = usbfds; i < fds; i++) if (pollfds[i].revents & POLLIN)
    midi_input();] *)
Definition midi_dispatch (s : reactor) : list effect :=
  flat_map (fun p => if readable p then [Midi_input] else [])
           (skipn (usbfds s) (pollfds s)).

Definition leave (st : Z) (s : reactor) : reactor :=
  {| pc := Exited; outstanding := outstanding s; resubmit := resubmit s;
     stat := st; dec := dec s; pollfds := pollfds s; usbfds := usbfds s |}.

Definition goto (p : place) (s : reactor) : reactor :=
  {| pc := p; outstanding := outstanding s; resubmit := resubmit s;
     stat := stat s; dec := dec s; pollfds := pollfds s; usbfds := usbfds s |}.

(** One stretch of [receive_loop], from the place [pc s] to the next one. *)
Definition rstep (e : loop_env) (s : reactor) : reactor * list effect :=
  match pc s with
  | Start =>
      let st := submit_stat e in
      if st <? 0 then
        (leave st s, [Submit_transfer; Free_transfer])
      else
        ({| pc := Top; outstanding := (outstanding s + accepted st)%nat;
            resubmit := 0; stat := st; dec := dec s;
            pollfds := pollfds s; usbfds := usbfds s |},
         [Submit_transfer])
  | Top =>
      let fds := usb_part e ++ midi_part e in
      let timeouts := next_timeout e in
      if timeouts <? 0 then
        (leave timeouts s, [Free_transfer])
      else
        let timeout_ms :=
          if negb (timeouts =? 0)
          then tv_sec e * 1000 + Z.quot (tv_usec e) 1000 else -1 in
        let s1 :=
          {| pc := Polled; outstanding := outstanding s;
             resubmit := resubmit s; stat := stat s; dec := dec s;
             pollfds := polled (poll_revents e) 0 fds;
             usbfds := List.length (usb_part e) |} in
        if poll_stat e <? 0 then
          (leave LIBUSB_ERROR_OTHER s1,
           [Poll (List.length fds) timeout_ms; Free_transfer])
        else (s1, [Poll (List.length fds) timeout_ms])
  | Polled =>
      (* libusb_handle_events_timeout: libusb runs the callback of a
         submitted transfer that has an outcome *)
      match completion e, outstanding s with
      | Some (ts, received), S n =>
          let '(r, d, t) := rx_cb (dec s) ts (firstn RX_BUFSIZE received) in
          ({| pc := Handled; outstanding := n; resubmit := r;
              stat := stat s; dec := d;
              pollfds := pollfds s; usbfds := usbfds s |},
           Handle_events_timeout :: t)
      | _, _ => (goto Handled s, [Handle_events_timeout])
      end
  | Handled => (goto Dispatched s, midi_dispatch s)
  | Dispatched =>
      if negb (resubmit s =? 0) then
        let st := submit_stat e in
        let s1 :=
          {| pc := Top; outstanding := (outstanding s + accepted st)%nat;
             resubmit := 0; stat := st; dec := dec s;
             pollfds := pollfds s; usbfds := usbfds s |} in
        if negb (st =? 0) then (leave st s1, [Submit_transfer; Free_transfer])
        else (s1, [Submit_transfer])
      else (goto Top s, [])
  | Exited => (s, [])
  end.

(** Several stretches in the same pass. *)
Fixpoint rsteps (n : nat) (e : loop_env) (s : reactor)
  : reactor * list effect :=
  match n with
  | O => (s, [])
  | S n' =>
      let '(s1, t1) := rstep e s in
      let '(s2, t2) := rsteps n' e s1 in
      (s2, t1 ++ t2)
  end.

(** One pass of the [while (1)] body, from its head. *)
Definition loop_body (e : loop_env) (s : reactor) : reactor * list effect :=
  rsteps 4 e s.

Fixpoint passes (envs : list loop_env) (s : reactor)
  : reactor * list effect :=
  match envs with
  | [] => (s, [])
  | e :: rest =>
      match pc s with
      | Exited => (s, [])
      | _ =>
          let '(s1, t1) := loop_body e s in
          let '(s2, t2) := passes rest s1 in
          (s2, t1 ++ t2)
      end
  end.

(** [int receive_loop(...)]: [first] answers the submission before the loop
    and [envs] the passes of the loop.  The status is [None] while the loop
    is still running when [envs] is used up. *)
Definition receive_loop (r0 s0 : Z) (d : decoder)
  (first : loop_env) (envs : list loop_env)
  : option Z * decoder * list effect :=
  let '(s1, t1) := rstep first (reactor_init r0 s0 d) in
  let '(s2, t2) := passes envs s1 in
  (match pc s2 with Exited => Some (stat s2) | _ => None end,
   dec s2, t1 ++ t2).

(** The states [receive_loop] can be in. *)
Inductive reachable : reactor -> Prop :=
| reach_init : forall r0 s0 d, reachable (reactor_init r0 s0 d)
| reach_step : forall e s, reachable s -> reachable (fst (rstep e s)).

(** The descriptors of the MIDI side that are in the wait set of a pass and
    were reported readable by poll. *)
Definition readable_midi (e : loop_env) : list pollfd :=
  filter readable
    (polled (poll_revents e) (List.length (usb_part e)) (midi_part e)).

End Loop.

(** The number of calls of midi_input in a trace. *)
Definition midi_inputs (t : list effect) : nat :=
  List.length (filter is_midi_input t).

(** rx_cb only prints and calls the MIDI sink. *)
Definition sink_side (x : effect) : bool :=
  match x with
  | Print_status _ _ _ _ | Print_couldnt_send_midi
  | Midi_send_control_change _ _ _ => true
  | _ => false
  end.

(** The invariant of the transfer: nothing is outstanding, or exactly one
    transfer is and the flag is clear. *)
Definition transfer_inv (s : reactor) : Prop :=
  outstanding s = 0%nat
  \/ (outstanding s = 1%nat /\ resubmit s = 0 /\ pc s <> Start).

(** Inside the loop the flag holds 0, or the 1 that rx_cb stored. *)
Definition flag_inv (s : reactor) : Prop :=
  pc s = Start \/ pc s = Exited \/ resubmit s = 0 \/ resubmit s = 1.

(** A pass in which the device delivers B0 10 40 and every descriptor is
    readable. *)
Definition busy_pass : loop_env :=
  {| usb_pollfds := [mkPollfd 5 1 0];
     next_timeout := 1; tv_sec := 0; tv_usec := 100000;
     poll_stat := 3;
     poll_revents := fun _ => 1;
     completion := Some (LIBUSB_TRANSFER_COMPLETED, [0xB0; 0x10; 0x40]);
     submit_stat := 0 |}.

Definition two_midi_fds : list pollfd := [mkPollfd 7 1 0; mkPollfd 8 1 0].

Definition quiet_sink : Z -> Z -> Z -> Z := fun _ _ _ => 0.

(** The state at the head of the loop, and the one before the resubmit test
    of the first pass. *)
Definition at_top : reactor :=
  fst (rstep false quiet_sink two_midi_fds busy_pass
         (reactor_init 7 9 decoder_init)).

Definition at_resubmit : reactor :=
  fst (rstep false quiet_sink two_midi_fds busy_pass
    (fst (rstep false quiet_sink two_midi_fds busy_pass
      (fst (rstep false quiet_sink two_midi_fds busy_pass at_top))))).

Definition is_free (x : effect) : bool :=
  match x with Free_transfer => true | _ => false end.

Definition exited (s : reactor) : bool :=
  match pc s with Exited => true | _ => false end.

Definition flagged (b : bool) : nat := if b then 1%nat else 0%nat.

(** The number of calls of libusb_free_transfer in a trace. *)
Definition frees (t : list effect) : nat := List.length (filter is_free t).

(** The state at the head of the loop in normal operation: one transfer is
    with libusb and the flag is clear. *)
Definition armed (s : reactor) : Prop :=
  pc s = Top /\ outstanding s = 1%nat /\ resubmit s = 0.

(** poll is reached and does not fail. *)
Definition poll_ok (e : loop_env) : Prop :=
  0 <= next_timeout e /\ 0 <= poll_stat e.

(** The timeout handed to poll. *)
Definition poll_timeout (e : loop_env) : Z :=
  if negb (next_timeout e =? 0)
  then tv_sec e * 1000 + Z.quot (tv_usec e) 1000 else -1.



Definition refused_pass : loop_env :=
  {| usb_pollfds := [mkPollfd 5 1 0];
     next_timeout := 1; tv_sec := 0; tv_usec := 100000;
     poll_stat := 1;
     poll_revents := fun _ => 1;
     completion := Some (LIBUSB_TRANSFER_NO_DEVICE, []);
     submit_stat := LIBUSB_ERROR_NO_DEVICE |}.

Definition failing_poll_pass : loop_env :=
  {| usb_pollfds := [mkPollfd 5 1 0];
     next_timeout := 1; tv_sec := 0; tv_usec := 100000;
     poll_stat := -1;
     poll_revents := fun _ => 0;
     completion := None;
     submit_stat := 0 |}.

End Reactor.

(** ** The reconnect loop of [main] *)

Module Supervisor.

Import Codec Usb Reactor.

(** What the outside world answers during one pass of the [do ... while]
    body. *)
Record attempt_env := mkAttempt {
  world : usb_world;
  interrupt_transfer : Z -> list Z -> Z;   (* libusb_interrupt_transfer *)
  stack_resubmit : Z;                      (* uninitialised locals *)
  stack_stat : Z;
  first : loop_env;
  loop_envs : list loop_env
}.

(** The calls [main] makes, with the status each one returned. *)
Inductive main_event :=
| Sleep (seconds : Z)
| Usb_connect (stat : Z)
| Nocturn_init (stat : Z)
| Receive_loop (stat : option Z)
| Return (code : Z).

Section Main.

Variable CC72_TEST : bool.
Variable midi_send_control_change : Z -> Z -> Z -> Z.
Variable midipolls : list pollfd.

(** The [do { ... } while (stat);] of [main]: every [continue] and the end of
    the body reach the test [while (stat)], written [again].  The trace stops
    where [envs] is used up; [None] as for [nocturn_init]. *)
Fixpoint main_loop (stat : Z) (info : usb_info) (d : decoder)
  (envs : list attempt_env) : option (list main_event) :=
  match envs with
  | [] => Some []
  | a :: rest =>
      let again (st : Z) (i : usb_info) (d' : decoder) :=
        if negb (st =? 0) then main_loop st i d' rest else Some [Return 0] in
      let slept := if negb (stat =? 0) then [Sleep 1] else [] in
      let '(stat, info) := usb_connect (world a) info in
      if stat <? 0 then
        option_map (app (slept ++ [Usb_connect stat])) (again stat info d)
      else
        match nocturn_init (interrupt_transfer a) info with
        | None => None
        | Some (stat2, _) =>
            if stat2 <? 0 then
              option_map (app (slept ++ [Usb_connect stat; Nocturn_init stat2]))
                         (again stat2 info d)
            else
              let '(r, d', _) :=
                receive_loop CC72_TEST midi_send_control_change midipolls
                  (stack_resubmit a) (stack_stat a) d (first a) (loop_envs a) in
              let done :=
                slept
                  ++ [Usb_connect stat; Nocturn_init stat2; Receive_loop r] in
              match r with
              | None => Some done
              | Some stat3 => option_map (app done) (again stat3 info d')
              end
        end
  end.

End Main.

(** [int main(int argc, char **argv)]; [midi_init_alsa] is the pointer the
    ALSA set-up returns. *)
Definition main (CC72_TEST : bool)
  (midi_send_control_change : Z -> Z -> Z -> Z)
  (midi_init_alsa : option (list pollfd)) (envs : list attempt_env)
  : option (list main_event) :=
  match midi_init_alsa with
  | None => Some [Return 2]
  | Some midipolls =>
      main_loop CC72_TEST midi_send_control_change midipolls 0
        initial_info decoder_init envs
  end.

(** The trace of connection attempts with the given statuses: the first
    directly, each later one after a sleep of one second. *)
Definition attempts (stats : list Z) : list main_event :=
  match stats with
  | [] => []
  | s :: rest =>
      Usb_connect s :: flat_map (fun s' => [Sleep 1; Usb_connect s']) rest
  end.

Definition is_connect (e : main_event) : bool :=
  match e with Usb_connect _ => true | _ => false end.

Definition is_sleep (e : main_event) : bool :=
  match e with Sleep _ => true | _ => false end.

(** The status of the attempt [a], whatever [usb_info] holds. *)
Definition connects (a : attempt_env) : Z :=
  fst (usb_connect (world a) initial_info).

Definition sleep_connect (s : Z) : list main_event :=
  [Sleep 1; Usb_connect s].

Definition slept (stat : Z) : list main_event :=
  if negb (stat =? 0) then [Sleep 1] else [].

(** What follows the bring-up in the trace: the polling loop when
    nocturn_init returned no error, the next pass otherwise. *)
Definition after_init (st : Z) (tail : list main_event) : Prop :=
  (0 <= st -> exists r tail', tail = Receive_loop r :: tail')
  /\ (st < 0 -> tail = [] \/ exists tail', tail = Sleep 1 :: tail').

(** No device on the bus: libusb_open_device_with_vid_pid returns NULL. *)
Definition absent_world : usb_world :=
  {| open_device_with_vid_pid := fun _ _ => None;
     get_device := fun _ => None;
     get_device_descriptor := 0;
     get_config_descriptor := fun _ => (0, (0, 0));
     set_configuration := fun _ => 0;
     claim_interface := fun _ => 0 |}.

Definition unplugged : attempt_env :=
  {| world := absent_world;
     interrupt_transfer := fun _ _ => 0;
     stack_resubmit := 0; stack_stat := 0;
     first := busy_pass; loop_envs := [] |}.

(** The device is there and takes the bring-up writes. *)
Definition plugged : attempt_env :=
  {| world := plugged_world 0x81 0x02;
     interrupt_transfer := fun _ _ => 0;
     stack_resubmit := 0; stack_stat := 0;
     first := busy_pass;
     loop_envs := [busy_pass] |}.

(** The device is there but every bring-up write times out
    (LIBUSB_ERROR_TIMEOUT is -7). *)
Definition plugged_mute : attempt_env :=
  {| world := plugged_world 0x81 0x02;
     interrupt_transfer := fun _ _ => -7;
     stack_resubmit := 0; stack_stat := 0;
     first := busy_pass;
     loop_envs := [busy_pass] |}.

(** The life cycle of the reconnect loop, as an automaton over the calls of
    [main]: a first attempt, or a sleep and the next attempt; after a
    connection the bring-up; after the bring-up the polling loop; after any
    failure the backoff.  [Polling] is a trace that ends inside
    receive_loop. *)
Inductive phase :=
| Fresh | Backoff | Sleeping | Connected | Initialised | Polling.

Definition after_status (st : Z) (ok : phase) : option phase :=
  if st <? 0 then Some Backoff else if st =? 0 then Some ok else None.

Definition next_phase (p : phase) (ev : main_event) : option phase :=
  match p, ev with
  | Fresh, Usb_connect st | Sleeping, Usb_connect st =>
      after_status st Connected
  | Backoff, Sleep seconds => if seconds =? 1 then Some Sleeping else None
  | Connected, Nocturn_init st => after_status st Initialised
  | Initialised, Receive_loop None => Some Polling
  | Initialised, Receive_loop (Some st) =>
      if st =? 0 then None else Some Backoff
  | _, _ => None
  end.

Fixpoint accepts (p : phase) (t : list main_event) : bool :=
  match t with
  | [] => true
  | ev :: rest =>
      match next_phase p ev with
      | Some q => accepts q rest
      | None => false
      end
  end.

Definition entry_phase (stat : Z) : phase :=
  if stat =? 0 then Fresh else Backoff.

Definition is_return (e : main_event) : bool :=
  match e with Return _ => true | _ => false end.

End Supervisor.

(** * Properties *)

(** ** Decoder *)

Module CodecFacts.

Import Codec.

Lemma land_byte_high (d : Z) : Z.land (Z.land d 255) 128 = Z.land d 128.
Proof. now rewrite <- Z.land_assoc. Qed.

(** The branch [process] takes is decided by bit 7 of the argument. *)
Lemma process_status_byte (st : decoder) (d : Z) :
  Z.land d 128 <> 0 ->
  process st d =
    ({| state := DATA1; status := Z.land (Z.land d 255) 240;
        chan := Z.land (Z.land d 255) 15; data1 := data1 st |}, None).
Proof.
  intros H. unfold process. rewrite land_byte_high.
  destruct (Z.eqb_spec (Z.land d 128) 0); [contradiction | reflexivity].
Qed.

Lemma process_data_byte (st : decoder) (d : Z) :
  Z.land d 128 = 0 ->
  process st d =
    match state st with
    | STATUS => (st, None)
    | DATA1 =>
        ({| state := DATA2; status := status st; chan := chan st;
            data1 := Z.land d 255 |}, None)
    | DATA2 =>
        ({| state := DATA1; status := status st; chan := chan st;
            data1 := data1 st |},
         Some (mkEvent (status st) (chan st) (data1 st) (Z.land d 255)))
    end.
Proof.
  intros H. unfold process. rewrite land_byte_high, H. reflexivity.
Qed.

Lemma process_buffer_cons (st : decoder) (d : Z) (rest : list Z) :
  process_buffer st (d :: rest) =
    (fst (process_buffer (fst (process st d)) rest),
     emitted (snd (process st d))
       ++ snd (process_buffer (fst (process st d)) rest)).
Proof.
  simpl. destruct (process st d) as [st1 o]. simpl.
  destruct (process_buffer st1 rest). reflexivity.
Qed.

(** C6: from the initial decoder the bytes B0 10 40 20 50 produce exactly the
    two calls event(0xB0, 0, 0x10, 0x40) and event(0xB0, 0, 0x20, 0x50), in
    that order; the decoder goes DATA1, DATA2, DATA1, DATA2, DATA1, so it is
    back in DATA1 (not STATUS) after each call. *)
Theorem running_status_example :
  process_buffer decoder_init [0xB0; 0x10; 0x40; 0x20; 0x50] =
    ({| state := DATA1; status := 0xB0; chan := 0; data1 := 0x20 |},
     [mkEvent 0xB0 0 0x10 0x40; mkEvent 0xB0 0 0x20 0x50])
  /\ states_after decoder_init [0xB0; 0x10; 0x40; 0x20; 0x50] =
       [DATA1; DATA2; DATA1; DATA2; DATA1].
Proof. split; reflexivity. Qed.

(** C7: for every buffer split into a prefix and a suffix and every decoder
    state, two calls of process_buffer (prefix, then suffix from the state
    the first call leaves) make the same calls to event, and leave the same
    decoder, as one call on the whole buffer. *)
Theorem process_buffer_split (st : decoder) (pre suf : list Z) :
  process_buffer st (pre ++ suf) =
    (fst (process_buffer (fst (process_buffer st pre)) suf),
     snd (process_buffer st pre)
       ++ snd (process_buffer (fst (process_buffer st pre)) suf)).
Proof.
  revert st. induction pre as [| d pre IH]; intros st.
  - simpl. now destruct (process_buffer st suf).
  - change ((d :: pre) ++ suf) with (d :: (pre ++ suf)).
    rewrite !process_buffer_cons, IH. simpl.
    now rewrite app_assoc.
Qed.

(** C8: process is defined on every byte 0..255 in every decoder state and
    makes at most one call to event, only from DATA2 on a data byte; a data
    byte arriving in STATUS makes no call and leaves the decoder as it
    was, in STATUS. *)
Theorem process_total (st : decoder) (d : Z) :
  0 <= d <= 255 ->
  (exists st' o, process st d = (st', o)
     /\ (o = None \/ (state st = DATA2 /\ Z.land d 128 = 0)))
  /\ (Z.land d 128 = 0 -> state st = STATUS -> process st d = (st, None)).
Proof.
  intros _. split.
  - destruct (Z.eq_dec (Z.land d 128) 0) as [H | H].
    + rewrite (process_data_byte st d H).
      destruct (state st) eqn:E; eauto 6.
    + rewrite (process_status_byte st d H). eauto.
  - intros H E. rewrite (process_data_byte st d H), E. reflexivity.
Qed.

Lemma process_total_witness :
  0 <= 0x45 <= 255 /\ process decoder_init 0x45 = (decoder_init, None).
Proof.
  split; [lia |].
  apply (proj2 (process_total decoder_init 0x45 ltac:(lia)));
    reflexivity.
Defined.

(** C10: a byte with bit 7 clear leaves the remembered status and channel as
    they were, in every decoder state; hence whenever process changes the
    status or the channel, the byte had bit 7 set. *)
Theorem process_frame (st st' : decoder) (d : Z) (o : option Event) :
  process st d = (st', o) ->
  (Z.land d 128 = 0 -> status st' = status st /\ chan st' = chan st)
  /\ (status st' <> status st \/ chan st' <> chan st -> Z.land d 128 <> 0).
Proof.
  intros E.
  assert (F : Z.land d 128 = 0 -> status st' = status st /\ chan st' = chan st).
  { intros H. rewrite (process_data_byte st d H) in E.
    destruct (state st); inversion E; subst; split; reflexivity. }
  split; [exact F |].
  intros Hch H0. destruct (F H0) as [Hs Hc].
  destruct Hch as [Hn | Hn]; contradiction.
Qed.

Lemma process_frame_witness :
  let st := {| state := DATA2; status := 0xB0; chan := 3; data1 := 0x10 |} in
  status (fst (process st 0x45)) = 0xB0 /\ chan (fst (process st 0x45)) = 3.
Proof.
  intros st.
  apply (proj1 (process_frame st (fst (process st 0x45)) 0x45
                  (snd (process st 0x45)) eq_refl)).
  reflexivity.
Defined.

(** The calls to the MIDI sink, and the diagnostic prints, among the effects
    of one call of event. *)
Lemma event_sends (sink : Z -> Z -> Z -> Z) (ch cc v : Z) :
  filter is_send (send sink ch cc v) = [Midi_send_control_change ch cc v]
  /\ filter is_print_status (send sink ch cc v) = [].
Proof. unfold send. destruct (sink ch cc v <? 0); split; reflexivity. Qed.

(** C1 (as amended): in the build of the file (CC72_TEST not defined) every
    call of event with status 176 calls midi_send_control_change exactly
    once, with (1, data1, data2), also when data1 is in 96..103; what the
    range 96..103 suppresses is the diagnostic print of the event.  A call
    with another status reaches neither. *)
Theorem event_forwards_control_change
  (sink : Z -> Z -> Z -> Z) (st ch d1 d2 : Z) :
  filter is_send (event false sink st ch d1 d2) =
    (if st =? 176 then [Midi_send_control_change 1 d1 d2] else [])
  /\ filter is_print_status (event false sink st ch d1 d2) =
       (if (st =? 176) && negb ((96 <=? d1) && (d1 <=? 103))
        then [Print_status st ch d1 d2] else []).
Proof.
  unfold event. destruct (st =? 176); [| split; reflexivity].
  destruct (event_sends sink 1 d1 d2) as [Hs Hp].
  rewrite !filter_app, Hs, Hp, app_nil_r.
  replace ((d1 <? 96) || (d1 >? 103)) with (negb ((96 <=? d1) && (d1 <=? 103)))
    by (destruct (Z.ltb_spec d1 96), (Z.leb_spec 96 d1), (Z.leb_spec d1 103);
        destruct (Z.gtb_spec d1 103); simpl; try reflexivity; lia).
  simpl. destruct (negb ((96 <=? d1) && (d1 <=? 103))); split; reflexivity.
Qed.

(** C1 as stated fails: a control change with data1 = 96 is sent on. *)
Lemma event_touch_range_counterexample :
  filter is_send (event false (fun _ _ _ => 0) 176 0 96 127) =
    [Midi_send_control_change 1 96 127]
  /\ ~ (forall (sink : Z -> Z -> Z -> Z) (ch d1 d2 : Z),
          96 <= d1 <= 103 ->
          filter is_send (event false sink 176 ch d1 d2) = []).
Proof.
  split; [reflexivity |].
  intros H. specialize (H (fun _ _ _ => 0) 0 96 127 ltac:(lia)).
  discriminate H.
Qed.

End CodecFacts.

(** ** Hexadecimal payload strings *)

Module HexFacts.

Import Hex.

Lemma nibble_cases (v : Z) :
  nibble v ->
  v = 0 \/ v = 1 \/ v = 2 \/ v = 3 \/ v = 4 \/ v = 5 \/ v = 6 \/ v = 7
  \/ v = 8 \/ v = 9 \/ v = 10 \/ v = 11 \/ v = 12 \/ v = 13 \/ v = 14
  \/ v = 15.
Proof. unfold nibble. lia. Qed.

Ltac each_nibble H :=
  apply nibble_cases in H;
  repeat (destruct H as [H | H]; [subst |]); subst.

(** digit inverts the lowercase digit characters. *)
Lemma digit_hexchar (v : Z) : nibble v -> digit (code (hexchar v)) = v.
Proof. intros H. each_nibble H; reflexivity. Qed.

Lemma hexchar_not_nul (v : Z) : nibble v -> (code (hexchar v) =? 0) = false.
Proof. intros H. each_nibble H; reflexivity. Qed.

Lemma byte_hexchar (h l : Z) :
  nibble h -> nibble l -> uint8 (byte (hexchar h) (hexchar l)) = 16 * h + l.
Proof.
  intros Hh Hl. unfold byte. rewrite !digit_hexchar by assumption.
  each_nibble Hh; each_nibble Hl; reflexivity.
Qed.

Lemma hex_fill_hexstring (room : nat) (nibbles : list (Z * Z)) :
  Forall nibbles_ok nibbles ->
  (List.length nibbles <= room)%nat ->
  hex_fill room (hexstring nibbles) =
    Some (map (fun p => 16 * fst p + snd p) nibbles).
Proof.
  intros Hall. revert room.
  induction Hall as [| [h l] rest [Hh Hl] _ IH]; intros room Hlen.
  - reflexivity.
  - simpl in Hh, Hl, Hlen. destruct room as [| room]; [lia |].
    cbn [hexstring hex_fill].
    rewrite (hexchar_not_nul h Hh), (hexchar_not_nul l Hl).
    rewrite IH by lia. cbn [option_map map fst snd].
    now rewrite byte_hexchar.
Qed.

(** C4 (as amended): a string of at most 80 pairs of the digits 0-9 and
    lowercase a-f decodes pair by pair, each pair to the byte
    16 * high + low, most significant nibble first; in particular b04800
    gives B0 48 00.  Uppercase A-F are outside the digits the decoder
    reads. *)
Theorem hexdata_lowercase (nibbles : list (Z * Z)) :
  Forall nibbles_ok nibbles ->
  (List.length nibbles <= 80)%nat ->
  hexdata_buf (hexstring nibbles) =
    Some (map (fun p => 16 * fst p + snd p) nibbles)
  /\ hexdata_buf "b04800" = Some [0xB0; 0x48; 0x00].
Proof.
  intros Hall Hlen. split; [| reflexivity].
  now apply hex_fill_hexstring.
Qed.

Lemma hexdata_lowercase_witness :
  hexstring [(11, 0); (4, 8); (0, 0)] = "b04800"%string
  /\ hexdata_buf (hexstring [(11, 0); (4, 8); (0, 0)]) = Some [176; 72; 0].
Proof.
  split; [reflexivity |].
  apply (proj1 (hexdata_lowercase [(11, 0); (4, 8); (0, 0)]
    ltac:(repeat constructor; simpl; lia) ltac:(simpl; lia))).
Defined.

(** C4 as stated fails: the uppercase form of a pair does not decode to the
    byte of its lowercase form. *)
Lemma hexdata_uppercase_counterexample :
  digit (code "A") = -22
  /\ hexdata_buf "0a" = Some [0x0A]
  /\ hexdata_buf "0A" = Some [0xEA]
  /\ hexdata_buf "0A" <> hexdata_buf "0a".
Proof. repeat split; discriminate. Qed.

End HexFacts.

(** ** Connecting *)

Module UsbFacts.

Import Usb.

(** The test on the endpoint locals cannot succeed on values of a
    [uint8_t]. *)
Lemma endpoints_unset_never (rx tx : Z) :
  endpoints_unset (uint8 rx) (uint8 tx) = false.
Proof.
  unfold endpoints_unset, uint8.
  pose proof (Z.mod_pos_bound rx 256 ltac:(lia)).
  pose proof (Z.mod_pos_bound tx 256 ltac:(lia)).
  destruct (Z.ltb_spec (tx mod 256) 0), (Z.ltb_spec (rx mod 256) 0);
    simpl; try reflexivity; lia.
Qed.

(** C2 (the code departs from it): with endpoint addresses 0x81 and 0x82,
    both inbound, usb_connect returns 0 and fills in rx_ep = 0x82 and
    tx_ep = 255; with 0x01 and 0x02, both outbound, it returns 0 with
    rx_ep = 255 and tx_ep = 0x02.  The test meant to catch this does not
    fire. *)
Theorem usb_connect_same_direction :
  usb_connect (plugged_world 0x81 0x82) initial_info =
    (0, {| devh := Some 1; rx_ep := 0x82; tx_ep := 255 |})
  /\ usb_connect (plugged_world 0x01 0x02) initial_info =
       (0, {| devh := Some 1; rx_ep := 255; tx_ep := 0x02 |})
  /\ endpoints_unset 0x82 255 = false
  /\ endpoints_unset 255 0x02 = false.
Proof. repeat split. Qed.

(** With a device that is plugged in, usb_connect succeeds whatever the two
    endpoint addresses are. *)
Lemma usb_connect_plugged (ep0 ep1 : Z) (i : usb_info) :
  fst (usb_connect (plugged_world ep0 ep1) i) = 0.
Proof.
  unfold usb_connect, plugged_world. simpl.
  destruct (negb (Z.land (uint8 ep0) 128 =? 0));
    destruct (negb (Z.land (uint8 ep1) 128 =? 0));
    rewrite ?endpoints_unset_never;
    try rewrite (endpoints_unset_never (-1) ep1);
    try rewrite (endpoints_unset_never ep1 (-1));
    try rewrite (endpoints_unset_never ep0 ep1);
    try rewrite (endpoints_unset_never ep1 ep0);
    reflexivity.
Qed.

(** The status of usb_connect does not depend on what [*usb_info] held. *)
Lemma usb_connect_stat (w : usb_world) (i i' : usb_info) :
  fst (usb_connect w i) = fst (usb_connect w i').
Proof.
  unfold usb_connect.
  destruct (open_device_with_vid_pid w _ _); [| reflexivity].
  destruct (get_device w _); [| reflexivity].
  destruct (get_device_descriptor w <? 0); [reflexivity |].
  destruct (get_config_descriptor w 1) as [st [ep0 ep1]].
  destruct (st <? 0); [reflexivity |].
  destruct (negb (Z.land (uint8 ep0) 128 =? 0));
    destruct (negb (Z.land (uint8 ep1) 128 =? 0));
    (destruct (endpoints_unset _ _); [reflexivity |]);
    (destruct (set_configuration w 1 <? 0); [reflexivity |]);
    destruct (claim_interface w 0 <? 0); reflexivity.
Qed.

(** The payload strings of nocturn_init are well formed. *)
Lemma nocturn_init_defined (xfer : Z -> list Z -> Z) (info : usb_info) :
  exists st t, nocturn_init xfer info = Some (st, t) /\ (st < 0 \/ st = 0).
Proof.
  unfold nocturn_init, Hex.send_hexdata, Hex.send_data.
  cbn [option_map].
  change (Hex.hexdata_buf "b04800") with (Some [176; 72; 0]).
  change (Hex.hexdata_buf "b04060") with (Some [176; 64; 96]).
  change (Hex.hexdata_buf "b05130") with (Some [176; 81; 48]).
  change (Hex.hexdata_buf "b05030") with (Some [176; 80; 48]).
  cbn [option_map].
  destruct (Z.ltb_spec (xfer (tx_ep info) [176; 72; 0]) 0); [eauto |].
  destruct (Z.ltb_spec (xfer (tx_ep info) [176; 64; 96]) 0); eauto.
Qed.

End UsbFacts.

(** ** The polling loop *)

Module ReactorFacts.

Import Codec Reactor.

Section Facts.

Variable CC72_TEST : bool.
Variable midi_send_control_change : Z -> Z -> Z -> Z.
Variable midipolls : list pollfd.

Local Abbreviation rstep :=
  (rstep CC72_TEST midi_send_control_change midipolls).
Local Abbreviation loop_body :=
  (loop_body CC72_TEST midi_send_control_change midipolls).
Local Abbreviation reachable :=
  (reachable CC72_TEST midi_send_control_change midipolls).
Local Abbreviation rx_cb := (rx_cb CC72_TEST midi_send_control_change).

Lemma midi_inputs_app (t u : list effect) :
  midi_inputs (t ++ u) = (midi_inputs t + midi_inputs u)%nat.
Proof. unfold midi_inputs. now rewrite filter_app, length_app. Qed.

Lemma polled_length (rev : nat -> Z) (l : list pollfd) (i : nat) :
  List.length (polled rev i l) = List.length l.
Proof.
  revert i. induction l; intros i; simpl; [| rewrite IHl]; reflexivity.
Qed.

Lemma polled_app (rev : nat -> Z) (a b : list pollfd) (i : nat) :
  polled rev i (a ++ b) =
    polled rev i a ++ polled rev (i + List.length a) b.
Proof.
  revert i. induction a as [| p a IH]; intros i; simpl.
  - now rewrite Nat.add_0_r.
  - rewrite IH. now rewrite Nat.add_succ_r.
Qed.

Lemma skipn_polled (rev : nat -> Z) (a b : list pollfd) :
  skipn (List.length a) (polled rev 0 (a ++ b)) =
    polled rev (List.length a) b.
Proof.
  rewrite polled_app. simpl.
  rewrite <- (polled_length rev a 0) at 1.
  now rewrite skipn_app, Nat.sub_diag, skipn_all.
Qed.

Lemma dispatch_loop_count (l : list pollfd) :
  midi_inputs (flat_map (fun p => if readable p then [Midi_input] else []) l)
  = List.length (filter readable l).
Proof.
  induction l as [| p l IH]; [reflexivity |].
  cbn [flat_map filter]. rewrite midi_inputs_app, IH.
  destruct (readable p); reflexivity.
Qed.

Lemma event_no_midi_input (st ch d1 d2 : Z) :
  midi_inputs (event CC72_TEST midi_send_control_change st ch d1 d2) = 0%nat.
Proof.
  unfold event, send.
  destruct (st =? 176); [| reflexivity].
  rewrite midi_inputs_app.
  destruct ((d1 <? 96) || (d1 >? 103)), CC72_TEST, (d1 =? 72);
    try reflexivity;
    match goal with |- context [if ?c then _ else _] => destruct c end;
    reflexivity.
Qed.

Lemma rx_cb_no_midi_input (d : decoder) (ts : transfer_status) (l : list Z) :
  midi_inputs (snd (rx_cb d ts l)) = 0%nat.
Proof.
  unfold Reactor.rx_cb.
  destruct ts; try reflexivity.
  destruct (process_buffer d l) as [d' evs]. simpl.
  induction evs as [| ev evs IH]; [reflexivity |].
  cbn [flat_map]. rewrite midi_inputs_app, IH.
  unfold dispatch. now rewrite event_no_midi_input.
Qed.

(** Where midi_input is called: only in the stretch after the events
    pass, once per readable slot above [usbfds]. *)
Lemma rstep_midi_inputs (e : loop_env) (s : reactor) :
  midi_inputs (snd (rstep e s)) =
    match pc s with
    | Handled =>
        List.length (filter readable (skipn (usbfds s) (pollfds s)))
    | _ => 0%nat
    end.
Proof.
  unfold Reactor.rstep. destruct (pc s).
  - destruct (submit_stat e <? 0); reflexivity.
  - destruct (next_timeout e <? 0); [reflexivity |].
    destruct (poll_stat e <? 0); reflexivity.
  - destruct (completion e) as [[ts l] |]; [| reflexivity].
    destruct (outstanding s); [reflexivity |].
    pose proof (rx_cb_no_midi_input (dec s) ts (firstn RX_BUFSIZE l)) as H.
    destruct (rx_cb (dec s) ts (firstn RX_BUFSIZE l)) as [[r d] t].
    exact H.
  - unfold midi_dispatch. simpl. apply dispatch_loop_count.
  - destruct (negb (resubmit s =? 0)); [| reflexivity].
    destruct (negb (submit_stat e =? 0)); reflexivity.
  - reflexivity.
Qed.

Lemma rsteps_succ (n : nat) (e : loop_env) (s : reactor) :
  Reactor.rsteps CC72_TEST midi_send_control_change midipolls (S n) e s =
    (fst (Reactor.rsteps CC72_TEST midi_send_control_change midipolls n e
            (fst (rstep e s))),
     snd (rstep e s)
       ++ snd (Reactor.rsteps CC72_TEST midi_send_control_change midipolls n e
                 (fst (rstep e s)))).
Proof.
  simpl. destruct (rstep e s) as [s1 t1]. simpl.
  now destruct (Reactor.rsteps _ _ _ n e s1).
Qed.

Lemma rsteps_exited (n : nat) (e : loop_env) (s : reactor) :
  pc s = Exited ->
  Reactor.rsteps CC72_TEST midi_send_control_change midipolls n e s = (s, []).
Proof.
  intros H. induction n as [| n IH]; [reflexivity |].
  rewrite rsteps_succ. unfold Reactor.rstep at 1 2 3. rewrite H. simpl.
  now rewrite IH.
Qed.

(** The pass from the head of the loop, when poll is reached and
    succeeds. *)
Lemma rstep_top (e : loop_env) (s : reactor) :
  pc s = Top -> (next_timeout e <? 0) = false -> (poll_stat e <? 0) = false ->
  pc (fst (rstep e s)) = Polled
  /\ pollfds (fst (rstep e s)) =
       polled (poll_revents e) 0 (usb_part e ++ midi_part midipolls e)
  /\ usbfds (fst (rstep e s)) = List.length (usb_part e).
Proof.
  intros H Ht Hp. unfold Reactor.rstep. rewrite H, Ht, Hp. simpl. auto.
Qed.

Lemma rstep_top_exit (e : loop_env) (s : reactor) :
  pc s = Top -> (next_timeout e <? 0) || (poll_stat e <? 0) = true ->
  pc (fst (rstep e s)) = Exited.
Proof.
  intros H Hx. unfold Reactor.rstep. rewrite H.
  destruct (next_timeout e <? 0); [reflexivity |].
  simpl in Hx. rewrite Hx. reflexivity.
Qed.

Lemma rstep_polled (e : loop_env) (s : reactor) :
  pc s = Polled ->
  pc (fst (rstep e s)) = Handled
  /\ pollfds (fst (rstep e s)) = pollfds s
  /\ usbfds (fst (rstep e s)) = usbfds s.
Proof.
  intros H. unfold Reactor.rstep. rewrite H.
  destruct (completion e) as [[ts l] |]; [| simpl; auto].
  destruct (outstanding s); [simpl; auto |].
  destruct (rx_cb (dec s) ts (firstn RX_BUFSIZE l)) as [[r d] t].
  simpl. auto.
Qed.

Lemma rstep_handled (e : loop_env) (s : reactor) :
  pc s = Handled -> pc (fst (rstep e s)) = Dispatched.
Proof. intros H. unfold Reactor.rstep. rewrite H. reflexivity. Qed.

(** C3 (as amended): in a pass of the loop, midi_input is called once for
    every descriptor of the MIDI side that is in the wait set and that poll
    reported readable - as many times as there are such descriptors, none
    when the pass leaves the loop at poll or before. *)
Theorem midi_input_per_readable_descriptor (e : loop_env) (s : reactor) :
  pc s = Top ->
  midi_inputs (snd (loop_body e s)) =
    if (next_timeout e <? 0) || (poll_stat e <? 0) then 0%nat
    else List.length (readable_midi midipolls e).
Proof.
  intros H. unfold Reactor.loop_body.
  rewrite rsteps_succ. cbn [snd]. rewrite midi_inputs_app.
  rewrite rstep_midi_inputs, H.
  destruct ((next_timeout e <? 0) || (poll_stat e <? 0)) eqn:Hx.
  - rewrite rsteps_exited by (now apply rstep_top_exit). reflexivity.
  - apply orb_false_elim in Hx. destruct Hx as [Ht Hp].
    destruct (rstep_top e s H Ht Hp) as (P1 & F1 & U1).
    destruct (rstep_polled e _ P1) as (P2 & F2 & U2).
    pose proof (rstep_handled e _ P2) as P3.
    rewrite rsteps_succ. cbn [snd]. rewrite midi_inputs_app.
    rewrite rstep_midi_inputs, P1.
    rewrite rsteps_succ. cbn [snd]. rewrite midi_inputs_app.
    rewrite rstep_midi_inputs, P2.
    rewrite rsteps_succ. cbn [snd]. rewrite midi_inputs_app.
    rewrite rstep_midi_inputs, P3.
    rewrite F2, U2, F1, U1, skipn_polled. simpl.
    unfold readable_midi. change (midi_inputs []) with 0%nat. lia.
Qed.

Lemma accepted_cases (st : Z) : accepted st = 0%nat \/ accepted st = 1%nat.
Proof. unfold accepted. destruct (st =? 0); auto. Qed.

Lemma rstep_inv (e : loop_env) (s : reactor) :
  transfer_inv s -> transfer_inv (fst (rstep e s)).
Proof.
  unfold transfer_inv, Reactor.rstep. intros I.
  destruct (pc s) eqn:P.
  - destruct I as [O | (_ & _ & N)]; [| contradiction].
    destruct (submit_stat e <? 0); simpl; [auto |].
    rewrite O. destruct (accepted_cases (submit_stat e)) as [A | A];
      rewrite A; [left | right]; repeat split; congruence.
  - destruct (next_timeout e <? 0); [| destruct (poll_stat e <? 0)]; simpl;
      (destruct I as [O | (O & R & _)];
       [auto | right; repeat split; congruence]).
  - destruct (completion e) as [[ts l] |].
    + destruct (outstanding s) as [| n] eqn:O.
      * simpl. auto.
      * destruct (rx_cb (dec s) ts (firstn RX_BUFSIZE l)) as [[r d] t]. simpl.
        destruct I as [O' | (O' & _)]; [discriminate | left; congruence].
    + simpl. destruct I as [O | (O & R & _)];
        [auto | right; repeat split; congruence].
  - simpl. destruct I as [O | (O & R & _)];
      [auto | right; repeat split; congruence].
  - destruct (Z.eqb_spec (resubmit s) 0) as [R0 | R0]; simpl.
    + destruct I as [O | (O & R & _)];
        [auto | right; repeat split; congruence].
    + destruct I as [O | (_ & R & _)]; [| contradiction].
      destruct (Z.eqb_spec (submit_stat e) 0) as [S0 | S0]; simpl.
      * rewrite O. unfold accepted. rewrite S0. simpl.
        right. repeat split; congruence.
      * rewrite O. unfold accepted.
        destruct (Z.eqb_spec (submit_stat e) 0); [contradiction |]. auto.
  - simpl. rewrite P. exact I.
Qed.

Lemma reachable_inv (s : reactor) : reachable s -> transfer_inv s.
Proof.
  induction 1 as [r0 s0 d | e s _ IH].
  - left. reflexivity.
  - now apply rstep_inv.
Qed.

Lemma rx_cb_flag (d : decoder) (ts : transfer_status) (l : list Z) :
  fst (fst (rx_cb d ts l)) = 1.
Proof.
  unfold Reactor.rx_cb. destruct ts; try reflexivity.
  now destruct (process_buffer d l).
Qed.

Lemma rstep_flag (e : loop_env) (s : reactor) :
  flag_inv s -> flag_inv (fst (rstep e s)).
Proof.
  unfold flag_inv, Reactor.rstep. intros J.
  destruct (pc s) eqn:P.
  - destruct (submit_stat e <? 0); simpl; auto.
  - destruct (next_timeout e <? 0); [| destruct (poll_stat e <? 0)]; simpl;
      auto; destruct J as [J | [J | J]]; try discriminate; auto.
  - destruct (completion e) as [[ts l] |].
    + destruct (outstanding s) as [| n].
      * simpl. destruct J as [J | [J | J]]; try discriminate; auto.
      * pose proof (rx_cb_flag (dec s) ts (firstn RX_BUFSIZE l)) as F.
        destruct (rx_cb (dec s) ts (firstn RX_BUFSIZE l)) as [[r d] t].
        simpl in *. auto.
    + simpl. destruct J as [J | [J | J]]; try discriminate; auto.
  - simpl. destruct J as [J | [J | J]]; try discriminate; auto.
  - destruct (negb (resubmit s =? 0)).
    + destruct (negb (submit_stat e =? 0)); simpl; auto.
    + simpl. destruct J as [J | [J | J]]; try discriminate; auto.
  - simpl. auto.
Qed.

Lemma reachable_flag (s : reactor) : reachable s -> flag_inv s.
Proof.
  induction 1 as [r0 s0 d | e s _ IH].
  - left. reflexivity.
  - now apply rstep_flag.
Qed.

Lemma event_sink_side (st ch d1 d2 : Z) :
  forallb sink_side (event CC72_TEST midi_send_control_change st ch d1 d2)
  = true.
Proof.
  unfold event, send.
  destruct (st =? 176); [| reflexivity].
  rewrite forallb_app.
  destruct ((d1 <? 96) || (d1 >? 103)), CC72_TEST, (d1 =? 72);
    try reflexivity;
    match goal with |- context [if ?c then _ else _] => destruct c end;
    reflexivity.
Qed.

Lemma rx_cb_sink_side (d : decoder) (ts : transfer_status) (l : list Z) :
  forallb sink_side (snd (rx_cb d ts l)) = true.
Proof.
  unfold Reactor.rx_cb. destruct ts; try reflexivity.
  destruct (process_buffer d l) as [d' evs]. simpl.
  induction evs as [| ev evs IH]; [reflexivity |].
  cbn [flat_map]. rewrite forallb_app, IH.
  unfold dispatch. now rewrite event_sink_side.
Qed.

Lemma sink_side_no_submit (t : list effect) :
  forallb sink_side t = true -> existsb is_submit t = false.
Proof.
  induction t as [| x t IH]; [reflexivity |].
  simpl. intros H. apply andb_prop in H. destruct H as [Hx Ht].
  rewrite (IH Ht). destruct x; try discriminate; reflexivity.
Qed.

Lemma dispatch_loop_no_submit (l : list pollfd) :
  existsb is_submit
    (flat_map (fun p => if readable p then [Midi_input] else []) l) = false.
Proof.
  induction l as [| p l IH]; [reflexivity |].
  cbn [flat_map]. rewrite existsb_app, IH.
  destruct (readable p); reflexivity.
Qed.

(** Which stretches call libusb_submit_transfer. *)
Lemma rstep_submits (e : loop_env) (s : reactor) :
  existsb is_submit (snd (rstep e s)) = true ->
  pc s = Start \/ (pc s = Dispatched /\ resubmit s <> 0).
Proof.
  unfold Reactor.rstep. destruct (pc s) eqn:P; auto.
  - destruct (next_timeout e <? 0); [discriminate |].
    destruct (poll_stat e <? 0); discriminate.
  - destruct (completion e) as [[ts l] |]; [| discriminate].
    destruct (outstanding s); [discriminate |].
    pose proof (rx_cb_sink_side (dec s) ts (firstn RX_BUFSIZE l)) as F.
    destruct (rx_cb (dec s) ts (firstn RX_BUFSIZE l)) as [[r d] t].
    cbn [snd existsb is_submit orb] in *.
    rewrite (sink_side_no_submit t F). discriminate.
  - unfold midi_dispatch. cbn [snd].
    rewrite dispatch_loop_no_submit. discriminate.
  - destruct (Z.eqb_spec (resubmit s) 0); [discriminate | auto].
  - discriminate.
Qed.

(** C5: in every state receive_loop can reach - before and after the first
    submission, at the head of the loop, after poll, after the events pass
    in which libusb runs rx_cb, after the MIDI dispatch, and after leaving
    the loop - the number of outstanding receive transfers is 0 or 1.  A
    submission inside the loop is made only when nothing is outstanding and
    the flag holds the 1 stored by rx_cb, and the flag is 0 again once the
    submission is made. *)
Theorem one_outstanding_transfer (s : reactor) :
  reachable s ->
  (outstanding s = 0%nat \/ outstanding s = 1%nat)
  /\ (forall e : loop_env,
        pc s <> Start ->
        existsb is_submit (snd (rstep e s)) = true ->
        outstanding s = 0%nat
        /\ resubmit s = 1
        /\ resubmit (fst (rstep e s)) = 0
        /\ outstanding (fst (rstep e s)) = accepted (submit_stat e)).
Proof.
  intros R. pose proof (reachable_inv s R) as I.
  pose proof (reachable_flag s R) as J.
  split.
  - destruct I as [O | (O & _)]; auto.
  - intros e NS Hs.
    destruct (rstep_submits e s Hs) as [P | (P & Rn)]; [contradiction |].
    assert (O : outstanding s = 0%nat).
    { destruct I as [O | (_ & R0 & _)]; [exact O | contradiction]. }
    assert (R1 : resubmit s = 1).
    { destruct J as [J | [J | [J | J]]]; congruence. }
    repeat split; try assumption.
    + unfold Reactor.rstep. rewrite P, R1. simpl.
      destruct (negb (submit_stat e =? 0)); reflexivity.
    + unfold Reactor.rstep. rewrite P, R1, O. simpl.
      destruct (negb (submit_stat e =? 0)); reflexivity.
Qed.

(** Every state receive_loop passes through is one of the reachable
    states. *)
Lemma rsteps_reachable (n : nat) (e : loop_env) (s : reactor) :
  reachable s ->
  reachable
    (fst (Reactor.rsteps CC72_TEST midi_send_control_change midipolls n e s)).
Proof.
  revert s. induction n as [| n IH]; intros s R; [exact R |].
  rewrite rsteps_succ. cbn [fst]. apply IH. now constructor.
Qed.

Lemma passes_reachable (envs : list loop_env) (s : reactor) :
  reachable s ->
  reachable
    (fst (Reactor.passes CC72_TEST midi_send_control_change midipolls envs s)).
Proof.
  revert s. induction envs as [| e envs IH]; intros s R; [exact R |].
  cbn [Reactor.passes].
  pose proof (rsteps_reachable 4 e s R) as R1.
  fold (loop_body e s) in R1.
  destruct (loop_body e s) as [s1 t1].
  specialize (IH s1 R1).
  destruct (Reactor.passes _ _ _ envs s1) as [s2 t2].
  destruct (pc s); assumption.
Qed.

End Facts.

Lemma one_outstanding_transfer_witness :
  pc at_resubmit = Dispatched
  /\ (outstanding at_resubmit = 0%nat \/ outstanding at_resubmit = 1%nat)
  /\ resubmit
       (fst (rstep false quiet_sink two_midi_fds busy_pass at_resubmit)) = 0.
Proof.
  assert (R : reachable false quiet_sink two_midi_fds at_resubmit).
  { unfold at_resubmit, at_top. repeat apply reach_step. apply reach_init. }
  destruct (one_outstanding_transfer false quiet_sink two_midi_fds
              at_resubmit R) as [A B].
  split; [reflexivity |]. split; [exact A |].
  apply (B busy_pass); [discriminate | reflexivity].
Defined.

Lemma midi_input_per_readable_descriptor_witness :
  pc at_top = Top
  /\ midi_inputs
       (snd (loop_body false quiet_sink two_midi_fds busy_pass at_top))
     = List.length (readable_midi two_midi_fds busy_pass).
Proof.
  split; [reflexivity |].
  exact (midi_input_per_readable_descriptor false quiet_sink two_midi_fds
           busy_pass at_top eq_refl).
Defined.

(** C3 as stated fails: with two MIDI descriptors readable, one pass calls
    midi_input twice. *)
Lemma midi_input_twice_counterexample :
  pc at_top = Top
  /\ midi_inputs
       (snd (loop_body false quiet_sink two_midi_fds busy_pass at_top)) = 2%nat
  /\ ~ (forall (mp : list pollfd) (e : loop_env) (s : reactor),
          pc s = Top ->
          (midi_inputs (snd (loop_body false quiet_sink mp e s)) <= 1)%nat).
Proof.
  split; [reflexivity |]. split; [reflexivity |].
  intros H. specialize (H two_midi_fds busy_pass at_top eq_refl).
  vm_compute in H. lia.
Qed.

End ReactorFacts.

(** ** The reconnect loop *)

Module SupervisorFacts.

Import Codec Usb Reactor Supervisor UsbFacts.

Section Facts.

Variable CC72_TEST : bool.
Variable midi_send_control_change : Z -> Z -> Z -> Z.
Variable midipolls : list pollfd.

Local Abbreviation main_loop :=
  (main_loop CC72_TEST midi_send_control_change midipolls).

Lemma connects_eq (a : attempt_env) (info : usb_info) :
  fst (usb_connect (world a) info) = connects a.
Proof. apply usb_connect_stat. Qed.

(** main_loop always has a trace: None cannot arise. *)
Lemma main_loop_defined (envs : list attempt_env) :
  forall stat info d, exists t, main_loop stat info d envs = Some t.
Proof.
  induction envs as [| a rest IH]; intros stat info d;
    [exists []; reflexivity |].
  cbn [Supervisor.main_loop].
  destruct (usb_connect (world a) info) as [st info1].
  assert (G : forall st' i d' pre,
    exists t,
      option_map (app pre)
        (if negb (st' =? 0) then main_loop st' i d' rest
         else Some [Return 0]) = Some t).
  { intros st' i d' pre. destruct (negb (st' =? 0)); [| simpl; eauto].
    destruct (IH st' i d') as [t ->]. simpl. eauto. }
  destruct (st <? 0); [apply G |].
  destruct (nocturn_init_defined (interrupt_transfer a) info1)
    as (st2 & t2 & -> & _).
  destruct (st2 <? 0); [apply G |].
  destruct (receive_loop _ _ _ _ _ _ _ _) as [[r d'] t3].
  destruct r; [apply G | eauto].
Qed.

(** After a pass that ended with a non-zero status the next pass starts with
    the sleep. *)
Lemma main_loop_sleeps_first (stat : Z) (info : usb_info) (d : decoder)
  (envs : list attempt_env) (t : list main_event) :
  stat <> 0 ->
  main_loop stat info d envs = Some t ->
  t = [] \/ exists t', t = Sleep 1 :: t'.
Proof.
  intros Hs. destruct envs as [| a rest]; [simpl; intros [= <-]; auto |].
  cbn [Supervisor.main_loop].
  destruct (Z.eqb_spec stat 0); [contradiction |]. cbn [negb].
  destruct (usb_connect (world a) info) as [st info1].
  intros H. right.
  destruct (st <? 0).
  - destruct (if negb (st =? 0) then _ else _); [| discriminate].
    inversion H. simpl. eauto.
  - destruct (nocturn_init (interrupt_transfer a) info1) as [[st2 t2] |];
      [| discriminate].
    destruct (st2 <? 0).
    + destruct (if negb (st2 =? 0) then _ else _); [| discriminate].
      inversion H. simpl. eauto.
    + destruct (receive_loop _ _ _ _ _ _ _ _) as [[r d'] t3].
      destruct r as [st3 |].
      * destruct (if negb (st3 =? 0) then _ else _); [| discriminate].
        inversion H. simpl. eauto.
      * inversion H. simpl. eauto.
Qed.

(** A pass whose connection attempt fails. *)
Lemma main_loop_failed (a : attempt_env) (rest : list attempt_env)
  (stat : Z) (info : usb_info) (d : decoder) :
  connects a < 0 ->
  exists info1,
    main_loop stat info d (a :: rest) =
      option_map (app (slept stat ++ [Usb_connect (connects a)]))
                 (main_loop (connects a) info1 d rest).
Proof.
  intros Hf. cbn [Supervisor.main_loop].
  pose proof (connects_eq a info) as E.
  destruct (usb_connect (world a) info) as [st info1]. cbn [fst] in E.
  subst st. exists info1.
  destruct (Z.ltb_spec (connects a) 0); [| lia].
  destruct (Z.eqb_spec (connects a) 0); [lia |]. reflexivity.
Qed.

(** A pass whose connection attempt succeeds. *)
Lemma main_loop_connected (a : attempt_env) (rest : list attempt_env)
  (stat : Z) (info : usb_info) (d : decoder) :
  connects a = 0 ->
  exists st tail,
    main_loop stat info d (a :: rest) =
      Some (slept stat ++ Usb_connect 0 :: Nocturn_init st :: tail)
    /\ after_init st tail.
Proof.
  intros Hc. cbn [Supervisor.main_loop].
  pose proof (connects_eq a info) as E.
  destruct (usb_connect (world a) info) as [st0 info1]. cbn [fst] in E.
  rewrite Hc in E. subst st0. cbn [Z.ltb Z.compare].
  destruct (nocturn_init_defined (interrupt_transfer a) info1)
    as (st & t & -> & Hst).
  exists st. fold (slept stat).
  destruct (Z.ltb_spec st 0) as [Hneg | Hpos].
  - destruct (Z.eqb_spec st 0); [lia |]. cbn [negb].
    destruct (main_loop_defined rest st info1 d) as [tail Ht].
    exists tail. rewrite Ht. cbn [option_map]. split.
    + f_equal. rewrite <- app_assoc. reflexivity.
    + split; [lia |]. intros _.
      apply (main_loop_sleeps_first st info1 d rest); [lia | exact Ht].
  - destruct (receive_loop _ _ _ _ _ _ _ _) as [[r d'] t3].
    destruct r as [st3 |].
    + destruct (main_loop_defined rest st3 info1 d') as [tail Ht].
      destruct (negb (st3 =? 0)).
      * rewrite Ht. cbn [option_map].
        exists (Receive_loop (Some st3) :: tail). split.
        -- f_equal. rewrite <- app_assoc. reflexivity.
        -- split; [eauto | lia].
      * cbn [option_map].
        exists [Receive_loop (Some st3); Return 0]. split.
        -- f_equal. rewrite <- app_assoc. reflexivity.
        -- split; [eauto | lia].
    + exists [Receive_loop None]. split.
      * reflexivity.
      * split; [eauto | lia].
Qed.

(** Failed attempts followed by a successful one, entered after a pass that
    failed. *)
Lemma main_loop_retries (fails : list attempt_env) (ok : attempt_env)
  (rest : list attempt_env) :
  Forall (fun a => connects a < 0) fails ->
  connects ok = 0 ->
  forall stat info d, stat <> 0 ->
  exists st tail,
    main_loop stat info d (fails ++ ok :: rest) =
      Some (flat_map sleep_connect (map connects fails ++ [0])
              ++ Nocturn_init st :: tail)
    /\ after_init st tail.
Proof.
  intros Hf Hok. induction Hf as [| a fails Ha _ IH]; intros stat info d Hs.
  - destruct (main_loop_connected ok rest stat info d Hok)
      as (st & tail & E & A).
    exists st, tail. split; [| exact A].
    cbn [app map]. rewrite E. unfold slept.
    destruct (Z.eqb_spec stat 0); [contradiction |].
    reflexivity.
  - destruct (main_loop_failed a (fails ++ ok :: rest) stat info d Ha)
      as [info1 E].
    destruct (IH (connects a) info1 d ltac:(lia)) as (st & tail & E1 & A).
    exists st, tail. split; [| exact A].
    change ((a :: fails) ++ ok :: rest) with (a :: (fails ++ ok :: rest)).
    rewrite E, E1. unfold slept.
    destruct (Z.eqb_spec stat 0); [contradiction |].
    cbn [option_map negb map app flat_map sleep_connect]. reflexivity.
Qed.

Lemma attempts_counts (s : Z) (stats : list Z) :
  List.length (filter is_connect (attempts (s :: stats)))
    = S (List.length stats)
  /\ List.length (filter is_sleep (attempts (s :: stats)))
    = List.length stats.
Proof.
  unfold attempts. cbn [filter is_connect is_sleep List.length].
  induction stats as [| s' stats [IHc IHs]]; [split; reflexivity |].
  cbn [flat_map app filter is_connect is_sleep List.length].
  split; congruence.
Qed.

(** C9 (as amended): when the first N connection attempts fail and the next
    one succeeds, main makes exactly N+1 calls of usb_connect up to that
    success, the first without a sleep and each later one right after a
    sleep of one second, and then calls nocturn_init.  It enters
    receive_loop next if nocturn_init returned no error; if nocturn_init
    failed, what follows is the sleep of the next pass. *)
Theorem supervisor_retries (fails : list attempt_env) (ok : attempt_env)
  (rest : list attempt_env) :
  Forall (fun a => connects a < 0) fails ->
  connects ok = 0 ->
  exists st tail,
    main CC72_TEST midi_send_control_change (Some midipolls)
         (fails ++ ok :: rest) =
      Some (attempts (map connects fails ++ [0]) ++ Nocturn_init st :: tail)
    /\ List.length (filter is_connect (attempts (map connects fails ++ [0])))
       = S (List.length fails)
    /\ List.length (filter is_sleep (attempts (map connects fails ++ [0])))
       = List.length fails
    /\ after_init st tail.
Proof.
  intros Hf Hok. unfold main.
  destruct fails as [| a fails].
  - destruct (main_loop_connected ok rest 0 initial_info
                decoder_init Hok) as (st & tail & E & A).
    exists st, tail. cbn [app map] in *. rewrite E.
    repeat split; try reflexivity; apply A.
  - inversion Hf as [| a' fails' Ha Hfs]; subst.
    destruct (main_loop_failed a (fails ++ ok :: rest) 0
                initial_info decoder_init Ha) as [info1 E].
    destruct (main_loop_retries fails ok rest Hfs Hok (connects a) info1
                decoder_init ltac:(lia)) as (st & tail & E1 & A).
    exists st, tail.
    change ((a :: fails) ++ ok :: rest) with (a :: (fails ++ ok :: rest)).
    rewrite E, E1. cbn [map app].
    destruct (attempts_counts (connects a) (map connects fails ++ [0]))
      as [C S].
    rewrite C, S, length_app, length_map. cbn [List.length].
    repeat split; try reflexivity; try lia; apply A.
Qed.

End Facts.

Lemma supervisor_retries_witness :
  exists st tail,
    main false quiet_sink (Some two_midi_fds)
         ([unplugged; unplugged] ++ plugged :: []) =
      Some (attempts (map connects [unplugged; unplugged] ++ [0])
              ++ Nocturn_init st :: tail)
    /\ List.length
         (filter is_connect
            (attempts (map connects [unplugged; unplugged] ++ [0])))
       = 3%nat
    /\ List.length
         (filter is_sleep
            (attempts (map connects [unplugged; unplugged] ++ [0])))
       = 2%nat
    /\ after_init st tail.
Proof.
  apply (supervisor_retries false quiet_sink
           two_midi_fds [unplugged; unplugged] plugged []).
  - repeat constructor.
  - reflexivity.
Defined.

(** C9 as stated fails: after a successful connection whose bring-up write
    fails, main does not enter receive_loop; it sleeps and connects
    again. *)
Lemma supervisor_bring_up_counterexample :
  connects plugged_mute = 0
  /\ main false quiet_sink (Some two_midi_fds)
          [plugged_mute; plugged_mute] =
       Some [Usb_connect 0; Nocturn_init (-7);
             Sleep 1; Usb_connect 0; Nocturn_init (-7)]
  /\ ~ (forall (ok : attempt_env) (rest : list attempt_env),
          connects ok = 0 ->
          exists st r tail,
            main false quiet_sink
                 (Some two_midi_fds) (ok :: rest) =
              Some (Usb_connect 0 :: Nocturn_init st
                      :: Receive_loop r :: tail)).
Proof.
  split; [reflexivity |]. split; [reflexivity |].
  intros H.
  destruct (H plugged_mute [plugged_mute] eq_refl) as (st & r & tail & E).
  vm_compute in E. discriminate E.
Qed.

End SupervisorFacts.

(** * Further properties of the code *)

(** ** Decoder and forwarding *)

Module CodecProps.

Import Codec CodecFacts.

(** A property of all byte values, checked value by value. *)
Lemma byte_forall (p : Z -> bool) :
  forallb (fun n => p (Z.of_nat n)) (seq 0 256) = true ->
  forall x, 0 <= x < 256 -> p x = true.
Proof.
  intros H x Hx. rewrite forallb_forall in H.
  specialize (H (Z.to_nat x)). rewrite Z2Nat.id in H by lia.
  apply H. apply in_seq. lia.
Qed.

Lemma land_255 (d : Z) : Z.land d 255 = d mod 256.
Proof. change 255 with (Z.ones 8). now rewrite Z.land_ones by lia. Qed.

Lemma land_255_range (d : Z) : 0 <= Z.land d 255 < 256.
Proof. rewrite land_255. apply Z.mod_pos_bound. lia. Qed.

Lemma land_byte_240 (d : Z) : Z.land (Z.land d 255) 240 = Z.land d 240.
Proof. now rewrite <- Z.land_assoc. Qed.

Lemma land_byte_15 (d : Z) : Z.land (Z.land d 255) 15 = Z.land d 15.
Proof. now rewrite <- Z.land_assoc. Qed.

Lemma data_byte_bits (d : Z) :
  data_byte d -> Z.land d 128 = 0 /\ Z.land d 255 = d.
Proof.
  intros H.
  assert (B : ((Z.land d 128 =? 0) && (Z.land d 255 =? d)
               || negb (d <=? 127)) = true).
  { apply (byte_forall
             (fun x => (Z.land x 128 =? 0) && (Z.land x 255 =? x)
                       || negb (x <=? 127))).
    - vm_compute. reflexivity.
    - unfold data_byte in H. lia. }
  unfold data_byte in H.
  destruct (Z.leb_spec d 127); [| lia].
  rewrite orb_false_r in B. apply andb_prop in B. destruct B as [B1 B2].
  split; [now apply Z.eqb_eq | now apply Z.eqb_eq].
Qed.

Lemma status_byte_bits (s : Z) : status_byte s -> Z.land s 128 <> 0.
Proof.
  intros H.
  assert (B : (negb (Z.land s 128 =? 0) || (s <=? 127)) = true).
  { apply (byte_forall (fun x => negb (Z.land x 128 =? 0) || (x <=? 127))).
    - vm_compute. reflexivity.
    - unfold status_byte in H. lia. }
  unfold status_byte in H.
  destruct (Z.leb_spec s 127); [lia |].
  rewrite orb_false_r in B.
  destruct (Z.eqb_spec (Z.land s 128) 0); [discriminate | assumption].
Qed.

(** X1: process reads its argument modulo 256, so a buffer byte gives the
    same result whether the [char] it is read through is signed or
    unsigned. *)
Theorem process_char_sign (st : decoder) (d k : Z) :
  process st (d + 256 * k) = process st d.
Proof.
  unfold process. rewrite !land_255.
  replace ((d + 256 * k) mod 256) with (d mod 256); [reflexivity |].
  rewrite (Z.mul_comm 256 k). symmetry. apply Z_mod_plus_full.
Qed.

Lemma running_pairs (st : decoder) (pairs : list (Z * Z)) :
  state st = DATA1 ->
  Forall (fun p => data_byte (fst p) /\ data_byte (snd p)) pairs ->
  state (fst (process_buffer st (flat_map pair_bytes pairs))) = DATA1
  /\ status (fst (process_buffer st (flat_map pair_bytes pairs))) = status st
  /\ chan (fst (process_buffer st (flat_map pair_bytes pairs))) = chan st
  /\ snd (process_buffer st (flat_map pair_bytes pairs)) =
       map (fun p => mkEvent (status st) (chan st) (fst p) (snd p)) pairs.
Proof.
  intros Hs Hall. revert st Hs.
  induction Hall as [| [a b] pairs [Ha Hb] _ IH]; intros st Hs.
  - simpl. auto.
  - cbn [flat_map pair_bytes fst snd app].
    destruct (data_byte_bits a Ha) as [A1 A2].
    destruct (data_byte_bits b Hb) as [B1 B2].
    rewrite !process_buffer_cons.
    rewrite (process_data_byte st a A1), Hs. cbn [fst snd emitted].
    rewrite process_data_byte by exact B1. cbn [state fst snd emitted].
    rewrite A2, B2.
    match goal with
    | |- context [process_buffer ?st1 _] =>
        destruct (IH st1 eq_refl) as (I1 & I2 & I3 & I4)
    end.
    cbn [status chan data1] in *.
    rewrite I1, I2, I3, I4. cbn [app map fst snd]. auto.
Qed.

(** X2: running status.  From any decoder state, also in the middle of a
    message, a status byte followed by n pairs of data bytes makes exactly
    n calls of event, one per pair and in order, all with the status and
    channel nibbles of that status byte; the decoder is then back in
    DATA1. *)
Theorem running_status (st : decoder) (s : Z) (pairs : list (Z * Z)) :
  status_byte s ->
  Forall (fun p => data_byte (fst p) /\ data_byte (snd p)) pairs ->
  snd (process_buffer st (s :: flat_map pair_bytes pairs)) =
    map (message s) pairs
  /\ state (fst (process_buffer st (s :: flat_map pair_bytes pairs))) = DATA1.
Proof.
  intros Hs Hall.
  rewrite process_buffer_cons.
  rewrite (process_status_byte st s (status_byte_bits s Hs)).
  cbn [fst snd emitted app].
  match goal with
  | |- context [process_buffer ?st1 _] =>
      destruct (running_pairs st1 pairs eq_refl Hall) as (I1 & _ & _ & I4)
  end.
  rewrite I1, I4. cbn [status chan].
  rewrite land_byte_240, land_byte_15. split; reflexivity.
Qed.

Lemma running_status_witness :
  snd (process_buffer {| state := DATA2; status := 0x90; chan := 5;
                         data1 := 1 |}
         (0xB3 :: flat_map pair_bytes [(0x10, 0x40); (0x20, 0x50)])) =
    [mkEvent 0xB0 3 0x10 0x40; mkEvent 0xB0 3 0x20 0x50].
Proof.
  apply (proj1 (running_status
    {| state := DATA2; status := 0x90; chan := 5; data1 := 1 |} 0xB3
    [(0x10, 0x40); (0x20, 0x50)]
    ltac:(unfold status_byte; lia)
    ltac:(repeat constructor; simpl; lia))).
Defined.

(** X3: data bytes that arrive before any status byte are dropped: in
    STATUS a buffer of data bytes makes no call of event and leaves the
    statics as they were. *)
Theorem orphan_data_dropped (st : decoder) (l : list Z) :
  state st = STATUS ->
  Forall data_byte l ->
  process_buffer st l = (st, []).
Proof.
  intros Hs Hall. induction Hall as [| d l Hd _ IH]; [reflexivity |].
  rewrite process_buffer_cons.
  rewrite (process_data_byte st d (proj1 (data_byte_bits d Hd))), Hs.
  cbn [fst snd emitted app]. rewrite IH. reflexivity.
Qed.

Lemma orphan_data_dropped_witness :
  process_buffer decoder_init [0x10; 0x40; 0x7F] = (decoder_init, []).
Proof.
  apply (orphan_data_dropped decoder_init [0x10; 0x40; 0x7F] eq_refl).
  repeat constructor; unfold data_byte; lia.
Defined.

(** The nibbles of a status byte, and the range of a data byte, as process
    computes them. *)
Lemma status_nibbles (x : Z) :
  0 <= x < 256 -> Z.land x 128 <> 0 ->
  128 <= Z.land x 240 <= 240 /\ Z.land x 240 mod 16 = 0
  /\ 0 <= Z.land x 15 <= 15.
Proof.
  intros Hx Hb.
  pose (p := fun x =>
    (Z.land x 128 =? 0)
    || ((128 <=? Z.land x 240) && (Z.land x 240 <=? 240)
        && (Z.land x 240 mod 16 =? 0)
        && (0 <=? Z.land x 15) && (Z.land x 15 <=? 15))).
  assert (B : p x = true)
    by (apply byte_forall; [vm_compute; reflexivity | lia]).
  unfold p in B.
  destruct (Z.eqb_spec (Z.land x 128) 0); [contradiction |].
  cbn [orb] in B.
  repeat (apply andb_prop in B; destruct B as [B ?]).
  repeat match goal with
         | H : (_ <=? _) = true |- _ => apply Z.leb_le in H
         | H : (_ =? _) = true |- _ => apply Z.eqb_eq in H
         end.
  lia.
Qed.

Lemma data_range (x : Z) :
  0 <= x < 256 -> Z.land x 128 = 0 -> 0 <= x <= 127.
Proof.
  intros Hx Hb.
  pose (p := fun x => negb (Z.land x 128 =? 0) || (x <=? 127)).
  assert (B : p x = true)
    by (apply byte_forall; [vm_compute; reflexivity | lia]).
  unfold p in B. rewrite Hb in B. cbn in B. apply Z.leb_le in B. lia.
Qed.

Lemma process_ok (st : decoder) (d : Z) :
  decoder_ok st ->
  decoder_ok (fst (process st d))
  /\ forallb event_ok (emitted (snd (process st d))) = true.
Proof.
  intros [Hst Hd1].
  pose proof (land_255_range d) as Hx.
  destruct (Z.eq_dec (Z.land d 128) 0) as [H | H].
  - rewrite (process_data_byte st d H).
    rewrite <- land_byte_high in H.
    pose proof (data_range _ Hx H) as Hr.
    destruct (state st) eqn:E; cbn [fst snd emitted forallb].
    + split; [| reflexivity]. split; [left; exact E | rewrite E; discriminate].
    + split; [| reflexivity].
      destruct Hst as [Hst | Hst]; [discriminate |].
      split; [right; exact Hst | intros _; exact Hr].
    + destruct Hst as [Hst | (S1 & S2 & S3)]; [discriminate |].
      specialize (Hd1 eq_refl).
      split; [split; [right; auto | discriminate] |].
      unfold event_ok. cbn [ev_status ev_chan ev_data1 ev_data2].
      rewrite S2.
      repeat (apply andb_true_intro; split);
        try (apply Z.leb_le; lia); reflexivity.
  - rewrite (process_status_byte st d H).
    rewrite <- land_byte_high in H.
    destruct (status_nibbles _ Hx H) as (N1 & N2 & N3).
    cbn [fst snd emitted forallb].
    split; [| reflexivity].
    split; [right; auto | discriminate].
Qed.

Lemma process_buffer_ok (l : list Z) (st : decoder) :
  decoder_ok st ->
  decoder_ok (fst (process_buffer st l))
  /\ forallb event_ok (snd (process_buffer st l)) = true.
Proof.
  revert st. induction l as [| d l IH]; intros st Hok.
  - split; [exact Hok | reflexivity].
  - rewrite process_buffer_cons. cbn [fst snd].
    destruct (process_ok st d Hok) as [H1 H2].
    destruct (IH _ H1) as [H3 H4].
    split; [exact H3 |]. now rewrite forallb_app, H2, H4.
Qed.

(** X4: whatever bytes the device sends after the program starts, every
    call of event gets a status in 0x80..0xF0 with a zero low nibble, a
    channel in 0..15 and two data values in 0..127. *)
Theorem events_well_formed (l : list Z) :
  forallb event_ok (snd (process_buffer decoder_init l)) = true.
Proof.
  apply process_buffer_ok. split; [left; reflexivity | discriminate].
Qed.

(** X5: no buffer makes more calls of event than it has pairs of bytes; the
    only allowance is the one byte that completes a message begun
    earlier. *)
Theorem events_at_most_half (st : decoder) (l : list Z) :
  (2 * List.length (snd (process_buffer st l))
   <= List.length l + match state st with DATA2 => 1 | _ => 0 end)%nat.
Proof.
  revert st. induction l as [| d l IH]; intros st.
  - simpl. lia.
  - rewrite process_buffer_cons. cbn [snd]. rewrite length_app.
    destruct (Z.eq_dec (Z.land d 128) 0) as [H | H].
    + rewrite (process_data_byte st d H).
      destruct (state st) eqn:E; cbn [fst snd emitted List.length].
      * specialize (IH st). rewrite E in IH. lia.
      * match goal with
        | |- context [process_buffer ?st1 l] => specialize (IH st1)
        end.
        cbn [state] in IH. lia.
      * match goal with
        | |- context [process_buffer ?st1 l] => specialize (IH st1)
        end.
        cbn [state] in IH. lia.
    + rewrite (process_status_byte st d H).
      cbn [fst snd emitted List.length].
      match goal with
      | |- context [process_buffer ?st1 l] => specialize (IH st1)
      end.
      cbn [state] in IH. destruct (state st); lia.
Qed.

End CodecProps.

(** ** Payload strings *)

Module HexProps.

Import Hex.

(** Induction on a string two characters at a time, as send_hexdata walks
    it. *)
Lemma string_pair_ind (P : string -> Prop) :
  P EmptyString ->
  (forall c, P (String c EmptyString)) ->
  (forall c0 c1 s, P s -> P (String c0 (String c1 s))) ->
  forall s, P s.
Proof.
  intros H0 H1 H2 s.
  assert (B : P s /\ forall c, P (String c s)).
  { induction s as [| c s [IH1 IH2]]; split; auto. }
  exact (proj1 B).
Qed.

Lemma hex_fill_defined (s : string) :
  forall room : nat,
  nul_free s = true ->
  ((exists buf, hex_fill room s = Some buf) <->
   (Nat.even (String.length s) = true
    /\ (String.length s <= 2 * room)%nat)).
Proof.
  induction s as [| c | c0 c1 s IH] using string_pair_ind; intros room Hn.
  - simpl. split; [intros _; split; [reflexivity | lia] | eauto].
  - cbn [nul_free andb] in Hn. apply andb_prop in Hn. destruct Hn as [Hc _].
    apply negb_true_iff in Hc. cbn [hex_fill]. rewrite Hc.
    split.
    + destruct room; intros [buf E]; discriminate.
    + intros [E _]. discriminate.
  - cbn [nul_free] in Hn.
    apply andb_prop in Hn. destruct Hn as [Hc0 Hn].
    apply andb_prop in Hn. destruct Hn as [Hc1 Hn].
    apply negb_true_iff in Hc0, Hc1.
    cbn [hex_fill String.length Nat.even]. rewrite Hc0.
    destruct room as [| room].
    + split; [intros [buf E]; discriminate | intros [_ L]; lia].
    + rewrite Hc1. specialize (IH room Hn).
      split.
      * intros [buf E].
        destruct (hex_fill room s) as [b |] eqn:F; [| discriminate].
        destruct (proj1 IH (ex_intro _ b eq_refl)) as [I1 I2].
        split; [exact I1 | lia].
      * intros [I1 I2].
        assert (I3 : (String.length s <= 2 * room)%nat) by lia.
        destruct (proj2 IH (conj I1 I3)) as [b F].
        rewrite F. simpl. eauto.
Qed.

(** X6: send_hexdata has a defined result for a string exactly when the
    string has an even number of characters and at most 160 of them; an odd
    string makes the loop step over the terminator, a longer one makes it
    write past the 80 bytes of buf. *)
Theorem hexdata_defined (s : string) :
  nul_free s = true ->
  ((exists buf, hexdata_buf s = Some buf) <->
   (Nat.even (String.length s) = true /\ (String.length s <= 160)%nat)).
Proof. intros Hn. apply (hex_fill_defined s 80 Hn). Qed.

Lemma hexdata_defined_witness :
  hexdata_buf "b0480" = None /\ exists buf, hexdata_buf "b04800" = Some buf.
Proof.
  split.
  - destruct (hexdata_buf "b0480") as [buf |] eqn:E; [| reflexivity].
    destruct (proj1 (hexdata_defined "b0480" eq_refl)
                (ex_intro _ buf E)) as [Odd _].
    discriminate Odd.
  - apply (proj2 (hexdata_defined "b04800" eq_refl)).
    split; [reflexivity | simpl; lia].
Defined.

Lemma hex_fill_bounds (s : string) :
  forall (room : nat) (buf : list Z),
  hex_fill room s = Some buf ->
  (List.length buf <= room)%nat
  /\ (2 * List.length buf <= String.length s)%nat
  /\ Forall (fun b => 0 <= b <= 255) buf.
Proof.
  induction s as [| c | c0 c1 s IH] using string_pair_ind; intros room buf.
  - simpl. intros [= <-]. simpl. repeat split; try lia. constructor.
  - cbn [hex_fill]. destruct (code c =? 0).
    + intros [= <-]. simpl. repeat split; try lia. constructor.
    + destruct room; discriminate.
  - cbn [hex_fill]. destruct (code c0 =? 0).
    + intros [= <-]. simpl. repeat split; try lia. constructor.
    + destruct room as [| room]; [discriminate |].
      destruct (code c1 =? 0); [discriminate |].
      destruct (hex_fill room s) as [b |] eqn:F; [| discriminate].
      cbn [option_map]. intros [= <-].
      destruct (IH room b F) as (I1 & I2 & I3).
      cbn [List.length String.length]. repeat split; try lia.
      constructor; [| exact I3].
      unfold uint8.
      pose proof (Z.mod_pos_bound (byte c0 c1) 256 ltac:(lia)). lia.
Qed.

(** X7: whenever send_hexdata gets as far as the transfer, the payload has
    at most 80 bytes - it fits buf -, at most half as many bytes as the
    string has characters, and every element is a byte value, also for
    strings that are not hexadecimal. *)
Theorem hexdata_buf_bounds (s : string) (buf : list Z) :
  hexdata_buf s = Some buf ->
  (List.length buf <= 80)%nat
  /\ (2 * List.length buf <= String.length s)%nat
  /\ Forall (fun b => 0 <= b <= 255) buf.
Proof. apply hex_fill_bounds. Qed.

Lemma hexdata_buf_bounds_witness :
  (List.length [0x33; 0xF8] <= 80)%nat
  /\ (2 * List.length [0x33; 0xF8] <= String.length "zZ!?")%nat
  /\ Forall (fun b => 0 <= b <= 255) [0x33; 0xF8].
Proof. apply (hexdata_buf_bounds "zZ!?" [0x33; 0xF8]). reflexivity. Defined.

End HexProps.

(** ** Connecting and bring-up *)

Module UsbProps.

Import Usb UsbFacts.

Ltac usb_connect_cases w :=
  unfold usb_connect;
  destruct (open_device_with_vid_pid w vid_novation pid_nocturn)
    as [h |] eqn:Eopen;
  [ destruct (get_device w h) as [dev |] eqn:Edev;
    [ destruct (Z.ltb_spec (get_device_descriptor w) 0) as [Hd | Hd];
      [ | destruct (get_config_descriptor w 1) as [st [ep0 ep1]] eqn:Ecfg;
          destruct (Z.ltb_spec st 0) as [Hc | Hc];
          [ | destruct (negb (Z.land (uint8 ep0) 128 =? 0)) eqn:B0;
              destruct (negb (Z.land (uint8 ep1) 128 =? 0)) eqn:B1;
              rewrite ?endpoints_unset_never;
              (destruct (Z.ltb_spec (set_configuration w 1) 0) as [Hs | Hs];
               [ | destruct (Z.ltb_spec (claim_interface w 0) 0)
                     as [Hi | Hi] ]) ] ]
    | ]
  | ].

Lemma usb_connect_nonpos (w : usb_world) (i : usb_info) :
  fst (usb_connect w i) < 0 \/ fst (usb_connect w i) = 0.
Proof.
  usb_connect_cases w; cbn [fst]; unfold LIBUSB_ERROR_NO_DEVICE; lia.
Qed.

(** X8: usb_connect returns 0 exactly when the device was found and every
    libusb call succeeded; any other outcome is a negative status. *)
Theorem usb_connect_status (w : usb_world) (i : usb_info) :
  fst (usb_connect w i) <= 0
  /\ (fst (usb_connect w i) = 0 <-> all_calls_succeed w).
Proof.
  unfold all_calls_succeed.
  usb_connect_cases w; cbn [fst];
    (split; [unfold LIBUSB_ERROR_NO_DEVICE; lia |]);
    (split;
     [ intros E; try (exfalso; unfold LIBUSB_ERROR_NO_DEVICE in E; lia);
       exists h, dev; rewrite ?Ecfg; cbn [fst]; repeat split;
       try assumption; lia
     | intros (h' & dev' & O & D & A1 & A2 & A3 & A4);
       try congruence;
       try (rewrite O in Eopen; inversion Eopen; subst; congruence);
       try (rewrite Ecfg in A2; cbn [fst] in A2); try lia; reflexivity ]).
Qed.

(** X9: a failed usb_connect leaves [*usb_info] as it was. *)
Theorem usb_connect_failure_frame (w : usb_world) (i : usb_info) :
  fst (usb_connect w i) <> 0 ->
  snd (usb_connect w i) = i.
Proof.
  usb_connect_cases w; cbn [fst snd]; intros E;
    try reflexivity; contradiction.
Qed.

Lemma usb_connect_failure_frame_witness :
  snd (usb_connect (plugged_world 0x81 0x02)
         {| devh := Some 9; rx_ep := 3; tx_ep := 4 |})
  <> {| devh := Some 9; rx_ep := 3; tx_ep := 4 |}
  /\ snd (usb_connect
            {| open_device_with_vid_pid := fun _ _ => Some 1;
               get_device := fun _ => Some 2;
               get_device_descriptor := 0;
               get_config_descriptor := fun _ => (0, (0x81, 0x02));
               set_configuration := fun _ => 0;
               claim_interface := fun _ => -6 |}
            {| devh := Some 9; rx_ep := 3; tx_ep := 4 |})
     = {| devh := Some 9; rx_ep := 3; tx_ep := 4 |}.
Proof.
  split; [discriminate |].
  apply (usb_connect_failure_frame
           {| open_device_with_vid_pid := fun _ _ => Some 1;
              get_device := fun _ => Some 2;
              get_device_descriptor := 0;
              get_config_descriptor := fun _ => (0, (0x81, 0x02));
              set_configuration := fun _ => 0;
              claim_interface := fun _ => -6 |}).
  discriminate.
Defined.

(** X10: when usb_connect succeeds on a device with one inbound and one
    outbound endpoint, rx_ep is the address with bit 7 set and tx_ep the
    other one, in whichever order the descriptor lists them, and devh is
    the handle that was opened. *)
Theorem usb_connect_endpoints (w : usb_world) (i : usb_info)
  (st ep_in ep_out : Z) :
  fst (usb_connect w i) = 0 ->
  0 <= ep_in <= 255 -> 0 <= ep_out <= 255 ->
  Z.land ep_in 128 <> 0 -> Z.land ep_out 128 = 0 ->
  get_config_descriptor w 1 = (st, (ep_in, ep_out))
  \/ get_config_descriptor w 1 = (st, (ep_out, ep_in)) ->
  rx_ep (snd (usb_connect w i)) = ep_in
  /\ tx_ep (snd (usb_connect w i)) = ep_out
  /\ devh (snd (usb_connect w i))
     = open_device_with_vid_pid w vid_novation pid_nocturn.
Proof.
  intros E Hin Hout Bin Bout Hcfg.
  assert (Uin : uint8 ep_in = ep_in) by (apply Z.mod_small; lia).
  assert (Uout : uint8 ep_out = ep_out) by (apply Z.mod_small; lia).
  assert (Tin : negb (Z.land (uint8 ep_in) 128 =? 0) = true).
  { rewrite Uin. now destruct (Z.eqb_spec (Z.land ep_in 128) 0). }
  assert (Tout : negb (Z.land (uint8 ep_out) 128 =? 0) = false).
  { rewrite Uout, Bout. reflexivity. }
  revert E. unfold usb_connect.
  destruct (open_device_with_vid_pid w vid_novation pid_nocturn) as [h |];
    [| discriminate].
  destruct (get_device w h); [| discriminate].
  destruct (Z.ltb_spec (get_device_descriptor w) 0); [cbn [fst]; lia |].
  destruct Hcfg as [-> | ->];
    (destruct (Z.ltb_spec st 0); [cbn [fst]; lia |]);
    rewrite Tin, Tout, ?endpoints_unset_never;
    (destruct (Z.ltb_spec (set_configuration w 1) 0); [cbn [fst]; lia |]);
    (destruct (Z.ltb_spec (claim_interface w 0) 0); [cbn [fst]; lia |]);
    intros _; cbn [snd rx_ep tx_ep devh]; auto.
Qed.

Lemma usb_connect_endpoints_witness :
  rx_ep (snd (usb_connect (plugged_world 0x02 0x81) initial_info)) = 0x81
  /\ tx_ep (snd (usb_connect (plugged_world 0x02 0x81) initial_info)) = 0x02
  /\ devh (snd (usb_connect (plugged_world 0x02 0x81) initial_info))
     = Some 1.
Proof.
  apply (usb_connect_endpoints (plugged_world 0x02 0x81) initial_info
           0 0x81 0x02);
    try reflexivity; try lia; try discriminate.
  right. reflexivity.
Defined.

(** X11: nocturn_init writes the value and the mode of LED ring 1 and gives
    up with the status of the first of the two that fails; otherwise it
    goes on to write the mode and the value of the speed-dial ring and
    returns 0 whatever these two writes report.  All writes go to tx_ep, in
    that order. *)
Theorem nocturn_init_policy (xfer : Z -> list Z -> Z) (info : usb_info) :
  nocturn_init xfer info =
    Some
      (if xfer (tx_ep info) ring1_value <? 0 then
         (xfer (tx_ep info) ring1_value,
          [Interrupt_transfer (tx_ep info) ring1_value])
       else if xfer (tx_ep info) ring1_mode <? 0 then
         (xfer (tx_ep info) ring1_mode,
          [Interrupt_transfer (tx_ep info) ring1_value;
           Interrupt_transfer (tx_ep info) ring1_mode])
       else
         (0,
          [Interrupt_transfer (tx_ep info) ring1_value;
           Interrupt_transfer (tx_ep info) ring1_mode;
           Interrupt_transfer (tx_ep info) dial_mode;
           Interrupt_transfer (tx_ep info) dial_value])).
Proof.
  unfold nocturn_init, Hex.send_hexdata, Hex.send_data.
  change (Hex.hexdata_buf "b04800") with (Some ring1_value).
  change (Hex.hexdata_buf "b04060") with (Some ring1_mode).
  change (Hex.hexdata_buf "b05130") with (Some dial_mode).
  change (Hex.hexdata_buf "b05030") with (Some dial_value).
  cbn [option_map].
  destruct (xfer (tx_ep info) ring1_value <? 0); [reflexivity |].
  destruct (xfer (tx_ep info) ring1_mode <? 0); reflexivity.
Qed.

End UsbProps.

(** ** The polling loop *)

Module ReactorProps.

Import Codec Reactor CodecFacts ReactorFacts.

Section Props.

Variable CC72_TEST : bool.
Variable midi_send_control_change : Z -> Z -> Z -> Z.
Variable midipolls : list pollfd.

Local Abbreviation rstep :=
  (rstep CC72_TEST midi_send_control_change midipolls).
Local Abbreviation rsteps :=
  (rsteps CC72_TEST midi_send_control_change midipolls).
Local Abbreviation loop_body :=
  (loop_body CC72_TEST midi_send_control_change midipolls).
Local Abbreviation passes :=
  (passes CC72_TEST midi_send_control_change midipolls).
Local Abbreviation receive_loop :=
  (receive_loop CC72_TEST midi_send_control_change midipolls).
Local Abbreviation rx_cb := (rx_cb CC72_TEST midi_send_control_change).
Local Abbreviation rsteps_succ :=
  (rsteps_succ CC72_TEST midi_send_control_change midipolls).

(** The state after each stretch of a pass. *)
Lemma top_state (e : loop_env) (s : reactor) :
  pc s = Top -> poll_ok e ->
  rstep e s =
    ({| pc := Polled; outstanding := outstanding s; resubmit := resubmit s;
        stat := stat s; dec := dec s;
        pollfds := polled (poll_revents e) 0
                     (usb_part e ++ midi_part midipolls e);
        usbfds := List.length (usb_part e) |},
     [Poll (List.length (usb_part e ++ midi_part midipolls e))
           (poll_timeout e)]).
Proof.
  intros H [Ht Hp]. unfold Reactor.rstep. rewrite H.
  destruct (Z.ltb_spec (next_timeout e) 0); [lia |].
  destruct (Z.ltb_spec (poll_stat e) 0); [lia |]. reflexivity.
Qed.

Lemma polled_state_callback (e : loop_env) (s : reactor)
  (ts : transfer_status) (received : list Z) (n : nat) :
  pc s = Polled -> outstanding s = S n ->
  completion e = Some (ts, received) ->
  rstep e s =
    ({| pc := Handled; outstanding := n; resubmit := 1; stat := stat s;
        dec := snd (fst (rx_cb (dec s) ts (firstn RX_BUFSIZE received)));
        pollfds := pollfds s; usbfds := usbfds s |},
     Handle_events_timeout
       :: snd (rx_cb (dec s) ts (firstn RX_BUFSIZE received))).
Proof.
  intros H O C. unfold Reactor.rstep. rewrite H, C, O.
  pose proof (rx_cb_flag CC72_TEST midi_send_control_change (dec s) ts
                (firstn RX_BUFSIZE received)) as F.
  destruct (rx_cb (dec s) ts (firstn RX_BUFSIZE received)) as [[r d] t].
  cbn [fst snd] in *. subst r. reflexivity.
Qed.

Lemma polled_state_idle (e : loop_env) (s : reactor) :
  pc s = Polled -> completion e = None \/ outstanding s = 0%nat ->
  rstep e s = (goto Handled s, [Handle_events_timeout]).
Proof.
  intros H [C | O]; unfold Reactor.rstep; rewrite H.
  - rewrite C. reflexivity.
  - rewrite O. destruct (completion e) as [[ts l] |]; reflexivity.
Qed.

Lemma handled_state (e : loop_env) (s : reactor) :
  pc s = Handled -> rstep e s = (goto Dispatched s, midi_dispatch s).
Proof. intros H. unfold Reactor.rstep. rewrite H. reflexivity. Qed.

Lemma dispatched_state_resubmit (e : loop_env) (s : reactor) :
  pc s = Dispatched -> resubmit s <> 0 ->
  rstep e s =
    if submit_stat e =? 0 then
      ({| pc := Top; outstanding := S (outstanding s); resubmit := 0;
          stat := 0; dec := dec s; pollfds := pollfds s;
          usbfds := usbfds s |}, [Submit_transfer])
    else
      ({| pc := Exited; outstanding := outstanding s; resubmit := 0;
          stat := submit_stat e; dec := dec s; pollfds := pollfds s;
          usbfds := usbfds s |}, [Submit_transfer; Free_transfer]).
Proof.
  intros H R. unfold Reactor.rstep. rewrite H.
  destruct (Z.eqb_spec (resubmit s) 0); [contradiction |]. cbn [negb].
  unfold accepted, leave.
  destruct (Z.eqb_spec (submit_stat e) 0) as [E | E]; cbn [negb].
  - rewrite E, Nat.add_1_r. reflexivity.
  - cbn [outstanding resubmit dec pollfds usbfds].
    rewrite Nat.add_0_r. reflexivity.
Qed.


Lemma loop_body_unfold (e : loop_env) (s : reactor) :
  loop_body e s =
    let s1 := fst (rstep e s) in
    let s2 := fst (rstep e s1) in
    let s3 := fst (rstep e s2) in
    (fst (rstep e s3),
     snd (rstep e s) ++ snd (rstep e s1) ++ snd (rstep e s2)
       ++ snd (rstep e s3)).
Proof.
  unfold Reactor.loop_body. rewrite !rsteps_succ. cbn [Reactor.rsteps fst snd].
  now rewrite app_nil_r.
Qed.

Lemma dispatch_sends (e : Event) :
  filter is_send (dispatch false midi_send_control_change e) =
    if is_control_change e then [forwarded e] else [].
Proof.
  unfold dispatch, event, is_control_change, forwarded.
  destruct (ev_status e =? 176); [| reflexivity].
  rewrite filter_app.
  destruct (event_sends midi_send_control_change 1 (ev_data1 e) (ev_data2 e))
    as [Hs _].
  rewrite Hs.
  destruct ((ev_data1 e <? 96) || (ev_data1 e >? 103)); reflexivity.
Qed.

(** X12: the bytes of a completed transfer reach the MIDI sink as one
    control change per decoded event of status 0xB0, in the order of
    decoding, each carrying the two data values on channel 1; a send that
    fails does not stop the ones after it. *)
Theorem rx_cb_forwards (d : decoder) (received : list Z) :
  filter is_send
    (snd (Reactor.rx_cb false midi_send_control_change d
            LIBUSB_TRANSFER_COMPLETED received)) =
    map forwarded (filter is_control_change (snd (process_buffer d received))).
Proof.
  unfold Reactor.rx_cb.
  destruct (process_buffer d received) as [d' evs]. cbn [snd].
  induction evs as [| ev evs IH]; [reflexivity |].
  cbn [flat_map filter]. rewrite filter_app, IH, dispatch_sends.
  destruct (is_control_change ev); reflexivity.
Qed.

Lemma process_buffer_app (d : decoder) (a b : list Z) :
  fst (process_buffer d (a ++ b)) =
    fst (process_buffer (fst (process_buffer d a)) b)
  /\ snd (process_buffer d (a ++ b)) =
       snd (process_buffer d a)
         ++ snd (process_buffer (fst (process_buffer d a)) b).
Proof.
  revert d. induction a as [| x a IH]; intros d.
  - split; reflexivity.
  - change ((x :: a) ++ b) with (x :: (a ++ b)).
    rewrite !process_buffer_cons. cbn [fst snd].
    destruct (IH (fst (process d x))) as [I1 I2].
    rewrite I1, I2, app_assoc. split; reflexivity.
Qed.

(** X23: the decoder carries over from one completed transfer to the next:
    two transfers delivering a and then b leave the decoder as one transfer
    delivering a followed by b would, and make the same prints and sends
    in the same order, wherever the cut falls in a message. *)
Theorem rx_cb_split (d : decoder) (a b : list Z) :
  let first := rx_cb d LIBUSB_TRANSFER_COMPLETED a in
  let second := rx_cb (snd (fst first)) LIBUSB_TRANSFER_COMPLETED b in
  let whole := rx_cb d LIBUSB_TRANSFER_COMPLETED (a ++ b) in
  snd (fst whole) = snd (fst second)
  /\ snd whole = snd first ++ snd second.
Proof.
  cbn zeta. unfold Reactor.rx_cb.
  destruct (process_buffer_app d a b) as [E1 E2].
  destruct (process_buffer d (a ++ b)) as [dw ew].
  destruct (process_buffer d a) as [da ea]. cbn [fst snd] in *.
  destruct (process_buffer da b) as [db eb]. cbn [fst snd] in *.
  subst dw ew. rewrite flat_map_app. split; reflexivity.
Qed.




Lemma dispatch_loop_repeat (l : list pollfd) :
  flat_map (fun p => if readable p then [Midi_input] else []) l =
    repeat Midi_input (List.length (filter readable l)).
Proof.
  induction l as [| p l IH]; [reflexivity |].
  cbn [flat_map filter]. rewrite IH.
  destruct (readable p); reflexivity.
Qed.


Lemma rx_cb_decoder (d : decoder) (ts : transfer_status) (l : list Z) :
  snd (fst (rx_cb d ts l)) =
    match ts with
    | LIBUSB_TRANSFER_COMPLETED => fst (process_buffer d l)
    | _ => d
    end.
Proof.
  unfold Reactor.rx_cb. destruct ts; try reflexivity.
  now destruct (process_buffer d l).
Qed.

Lemma no_submit_before_resubmit (e : loop_env) (cb : list effect) (k n : nat)
  (ms : Z) :
  forallb sink_side cb = true ->
  existsb is_submit
    (Poll n ms :: Handle_events_timeout :: cb ++ repeat Midi_input k) = false.
Proof.
  intros H. cbn [existsb is_submit orb].
  rewrite existsb_app, (sink_side_no_submit cb H).
  induction k; [reflexivity | exact IHk].
Qed.

(** X15: in normal operation a pass in which the transfer has an outcome -
    completed, timed out, failed or cancelled alike - and the resubmission
    is accepted ends as it began, with exactly one transfer outstanding and
    the flag clear; the resubmission is the last call of the pass and the
    only one.  The received bytes go through the decoder only when the
    transfer completed. *)
Theorem pass_rearms (e : loop_env) (s : reactor)
  (ts : transfer_status) (received : list Z) :
  armed s -> poll_ok e ->
  completion e = Some (ts, received) ->
  submit_stat e = 0 ->
  armed (fst (loop_body e s))
  /\ dec (fst (loop_body e s)) =
       match ts with
       | LIBUSB_TRANSFER_COMPLETED =>
           fst (process_buffer (dec s) (firstn RX_BUFSIZE received))
       | _ => dec s
       end
  /\ exists pre,
       snd (loop_body e s) = pre ++ [Submit_transfer]
       /\ existsb is_submit pre = false.
Proof.
  intros (P & O & R) Hp C S0. rewrite loop_body_unfold. cbn zeta.
  rewrite (top_state e s P Hp). cbn [fst snd].
  set (s1 := {| pc := Polled |}).
  rewrite (polled_state_callback e s1 ts received 0 eq_refl O C).
  cbn [fst snd].
  set (s2 := {| pc := Handled |}).
  rewrite (handled_state e s2 eq_refl). cbn [fst snd].
  rewrite (dispatched_state_resubmit e (goto Dispatched s2) eq_refl
             ltac:(discriminate)).
  rewrite S0. cbn [Z.eqb fst snd].
  split; [repeat split |]. split.
  - cbn [dec]. unfold s2, goto. cbn [dec]. unfold s1. cbn [dec].
    apply rx_cb_decoder.
  - unfold midi_dispatch. rewrite dispatch_loop_repeat.
    eexists. split.
    + cbn [app]. rewrite !app_comm_cons, app_assoc. reflexivity.
    + apply (no_submit_before_resubmit e).
      apply (rx_cb_sink_side CC72_TEST midi_send_control_change).
Qed.


(** X17: when the resubmission is refused the pass leaves the loop with the
    status libusb_submit_transfer returned, nothing is outstanding any
    more, and the transfer is freed right after the refused submission. *)
Theorem pass_resubmit_refused (e : loop_env) (s : reactor)
  (ts : transfer_status) (received : list Z) :
  armed s -> poll_ok e ->
  completion e = Some (ts, received) ->
  submit_stat e <> 0 ->
  pc (fst (loop_body e s)) = Exited
  /\ stat (fst (loop_body e s)) = submit_stat e
  /\ outstanding (fst (loop_body e s)) = 0%nat
  /\ exists pre,
       snd (loop_body e s) = pre ++ [Submit_transfer; Free_transfer].
Proof.
  intros (P & O & R) Hp C S0. rewrite loop_body_unfold. cbn zeta.
  rewrite (top_state e s P Hp). cbn [fst snd].
  set (s1 := {| pc := Polled |}).
  rewrite (polled_state_callback e s1 ts received 0 eq_refl O C).
  cbn [fst snd].
  set (s2 := {| pc := Handled |}).
  rewrite (handled_state e s2 eq_refl). cbn [fst snd].
  rewrite (dispatched_state_resubmit e (goto Dispatched s2) eq_refl
             ltac:(discriminate)).
  destruct (Z.eqb_spec (submit_stat e) 0); [contradiction |].
  cbn [fst snd].
  repeat split. eexists.
  cbn [app]. rewrite !app_comm_cons, app_assoc. reflexivity.
Qed.

(** X18: when libusb_get_next_timeout or poll fails, the pass leaves the
    loop at once - no events pass, no midi_input - with the libusb error,
    resp. LIBUSB_ERROR_OTHER, and frees the transfer although it is still
    outstanding. *)
Theorem pass_poll_fails (e : loop_env) (s : reactor) :
  armed s ->
  next_timeout e < 0 \/ (0 <= next_timeout e /\ poll_stat e < 0) ->
  pc (fst (loop_body e s)) = Exited
  /\ stat (fst (loop_body e s)) =
       (if next_timeout e <? 0 then next_timeout e else LIBUSB_ERROR_OTHER)
  /\ outstanding (fst (loop_body e s)) = 1%nat
  /\ (snd (loop_body e s) = [Free_transfer]
      \/ exists n ms, snd (loop_body e s) = [Poll n ms; Free_transfer]).
Proof.
  intros (P & O & R) Hf. unfold Reactor.loop_body. rewrite rsteps_succ.
  assert (X : pc (fst (rstep e s)) = Exited).
  { apply rstep_top_exit; [exact P |].
    destruct Hf as [Hf | [_ Hf]].
    - destruct (Z.ltb_spec (next_timeout e) 0); [reflexivity | lia].
    - destruct (Z.ltb_spec (poll_stat e) 0); [apply orb_true_r | lia]. }
  rewrite (rsteps_exited CC72_TEST midi_send_control_change midipolls 3 e
             _ X).
  cbn [fst snd]. rewrite app_nil_r. split; [exact X |].
  unfold Reactor.rstep. rewrite P.
  destruct (Z.ltb_spec (next_timeout e) 0) as [T | T].
  - cbn [fst snd leave stat outstanding]. auto.
  - destruct Hf as [Hf | [_ Hf]]; [lia |].
    destruct (Z.ltb_spec (poll_stat e) 0); [| lia].
    cbn [fst snd leave stat outstanding]. eauto 6.
Qed.

Lemma sink_side_frees (t : list effect) :
  forallb sink_side t = true -> frees t = 0%nat.
Proof.
  unfold frees. induction t as [| x t IH]; [reflexivity |].
  simpl. intros H. apply andb_prop in H. destruct H as [Hx Ht].
  destruct x; try discriminate; simpl; auto.
Qed.

Lemma repeat_frees (k : nat) : frees (repeat Midi_input k) = 0%nat.
Proof. induction k as [| k IH]; [reflexivity | exact IH]. Qed.

Lemma dispatch_frees (s : reactor) : frees (midi_dispatch s) = 0%nat.
Proof.
  unfold midi_dispatch. rewrite dispatch_loop_repeat. apply repeat_frees.
Qed.

(** Each stretch either goes on, or leaves the loop with a non-zero status
    and frees the transfer. *)
Lemma rstep_exit (e : loop_env) (s : reactor) :
  (exited s = true -> stat s <> 0) ->
  (exited (fst (rstep e s)) = true -> stat (fst (rstep e s)) <> 0)
  /\ (frees (snd (rstep e s)) + flagged (exited s)
      = flagged (exited (fst (rstep e s))))%nat.
Proof.
  intros I. destruct (pc s) eqn:P.
  - unfold Reactor.rstep, exited. rewrite P.
    destruct (Z.ltb_spec (submit_stat e) 0); cbn;
      split; try reflexivity; try discriminate. intros _. lia.
  - unfold Reactor.rstep, exited. rewrite P.
    destruct (Z.ltb_spec (next_timeout e) 0);
      [| destruct (Z.ltb_spec (poll_stat e) 0)]; cbn;
      split; try reflexivity; try discriminate; intros _;
      unfold LIBUSB_ERROR_OTHER; lia.
  - assert (N : exited s = false) by (unfold exited; now rewrite P).
    rewrite N.
    destruct (completion e) as [[ts l] |] eqn:C;
      [destruct (outstanding s) as [| n] eqn:O |].
    + rewrite (polled_state_idle e s P (or_intror O)).
      split; [discriminate | reflexivity].
    + rewrite (polled_state_callback e s ts l n P O C). cbn [fst snd].
      split; [discriminate |].
      change (frees (Handle_events_timeout :: ?t)) with (frees t).
      rewrite sink_side_frees; [reflexivity |].
      apply (rx_cb_sink_side CC72_TEST midi_send_control_change).
    + rewrite (polled_state_idle e s P (or_introl C)).
      split; [discriminate | reflexivity].
  - assert (N : exited s = false) by (unfold exited; now rewrite P).
    rewrite N, (handled_state e s P). cbn [fst snd].
    rewrite dispatch_frees. split; [discriminate | reflexivity].
  - unfold Reactor.rstep, exited. rewrite P.
    destruct (negb (resubmit s =? 0));
      [destruct (Z.eqb_spec (submit_stat e) 0) |]; cbn;
      split; try reflexivity; try discriminate. intros _. assumption.
  - unfold Reactor.rstep. rewrite P. cbn [fst snd].
    split; [exact I |]. reflexivity.
Qed.

Lemma frees_app (t u : list effect) : frees (t ++ u) = (frees t + frees u)%nat.
Proof. unfold frees. now rewrite filter_app, length_app. Qed.

Lemma rsteps_exit (n : nat) (e : loop_env) (s : reactor) :
  (exited s = true -> stat s <> 0) ->
  (exited (fst (rsteps n e s)) = true -> stat (fst (rsteps n e s)) <> 0)
  /\ (frees (snd (rsteps n e s)) + flagged (exited s)
      = flagged (exited (fst (rsteps n e s))))%nat.
Proof.
  revert s. induction n as [| n IH]; intros s I.
  - cbn. split; [exact I | reflexivity].
  - rewrite rsteps_succ. cbn [fst snd].
    destruct (rstep_exit e s I) as [I1 F1].
    destruct (IH _ I1) as [I2 F2].
    split; [exact I2 |]. rewrite frees_app. lia.
Qed.

Lemma passes_exit (envs : list loop_env) (s : reactor) :
  (exited s = true -> stat s <> 0) ->
  (exited (fst (passes envs s)) = true -> stat (fst (passes envs s)) <> 0)
  /\ (frees (snd (passes envs s)) + flagged (exited s)
      = flagged (exited (fst (passes envs s))))%nat.
Proof.
  revert s. induction envs as [| e envs IH]; intros s I.
  - cbn. split; [exact I | reflexivity].
  - cbn [Reactor.passes].
    destruct (rsteps_exit 4 e s I) as [I1 F1].
    fold (loop_body e s) in I1, F1.
    destruct (loop_body e s) as [s1 t1].
    cbn [fst snd] in I1, F1.
    destruct (IH s1 I1) as [I2 F2].
    destruct (passes envs s1) as [s2 t2]. cbn [fst snd] in I2, F2.
    destruct (pc s) eqn:P; cbn [fst snd];
      try (split; [exact I2 | rewrite frees_app; lia]).
    split; [exact I | reflexivity].
Qed.

(** The status with which receive_loop returns, and its calls of
    libusb_free_transfer. *)
Lemma receive_loop_exit (r0 s0 : Z) (d : decoder) (first : loop_env)
  (envs : list loop_env) :
  match receive_loop r0 s0 d first envs with
  | (Some st, _, t) => st <> 0 /\ frees t = 1%nat
  | (None, _, t) => frees t = 0%nat
  end.
Proof.
  unfold Reactor.receive_loop.
  assert (I0 : exited (reactor_init r0 s0 d) = true ->
               stat (reactor_init r0 s0 d) <> 0) by discriminate.
  destruct (rstep_exit first _ I0) as [I1 F1].
  destruct (rstep first (reactor_init r0 s0 d)) as [s1 t1].
  cbn [fst snd] in I1, F1.
  destruct (passes_exit envs s1 I1) as [I2 F2].
  destruct (passes envs s1) as [s2 t2]. cbn [fst snd] in I2, F2.
  rewrite frees_app. unfold exited in *. cbn [reactor_init pc flagged] in F1.
  destruct (pc s2); destruct (pc s1); cbn [flagged] in *;
    try lia; split; try lia; apply I2; reflexivity.
Qed.

(** X19: receive_loop never returns 0: every way out of it is an error
    status, so the caller always sees a failure. *)
Theorem receive_loop_status (r0 s0 : Z) (d : decoder) (first : loop_env)
  (envs : list loop_env) (st : Z) :
  fst (fst (receive_loop r0 s0 d first envs)) = Some st -> st <> 0.
Proof.
  pose proof (receive_loop_exit r0 s0 d first envs) as H.
  destruct (receive_loop r0 s0 d first envs) as [[[st' |] d'] t];
    cbn [fst]; intros [= <-]; apply H.
Qed.

(** X20: the transfer allocated by receive_loop is freed exactly once when
    receive_loop returns, on every way out, and never while the loop is
    still running. *)
Theorem receive_loop_frees (r0 s0 : Z) (d : decoder) (first : loop_env)
  (envs : list loop_env) :
  frees (snd (receive_loop r0 s0 d first envs)) =
    match fst (fst (receive_loop r0 s0 d first envs)) with
    | Some _ => 1%nat
    | None => 0%nat
    end.
Proof.
  pose proof (receive_loop_exit r0 s0 d first envs) as H.
  destruct (receive_loop r0 s0 d first envs) as [[[st' |] d'] t];
    cbn [fst snd]; apply H.
Qed.

End Props.

Lemma at_top_armed : armed at_top.
Proof. repeat split. Qed.

Lemma busy_pass_ok : poll_ok busy_pass.
Proof. unfold poll_ok, busy_pass. simpl. lia. Qed.



Lemma pass_rearms_witness :
  armed (fst (loop_body false quiet_sink two_midi_fds busy_pass at_top))
  /\ dec (fst (loop_body false quiet_sink two_midi_fds busy_pass at_top))
     = {| state := DATA1; status := 0xB0; chan := 0; data1 := 0x10 |}.
Proof.
  pose proof (pass_rearms false quiet_sink two_midi_fds busy_pass at_top
                LIBUSB_TRANSFER_COMPLETED [0xB0; 0x10; 0x40]
                at_top_armed busy_pass_ok eq_refl eq_refl) as (A & D & _).
  split; [exact A | exact D].
Defined.


Lemma pass_resubmit_refused_witness :
  pc (fst (loop_body false quiet_sink two_midi_fds refused_pass at_top))
    = Exited
  /\ stat (fst (loop_body false quiet_sink two_midi_fds refused_pass at_top))
     = -4.
Proof.
  assert (Q : poll_ok refused_pass) by (unfold poll_ok; simpl; lia).
  pose proof (pass_resubmit_refused false quiet_sink two_midi_fds
                refused_pass at_top LIBUSB_TRANSFER_NO_DEVICE []
                at_top_armed Q eq_refl ltac:(discriminate))
    as (A & B & _).
  split; [exact A | exact B].
Defined.

Lemma pass_poll_fails_witness :
  pc (fst (loop_body false quiet_sink two_midi_fds failing_poll_pass at_top))
    = Exited
  /\ stat (fst (loop_body false quiet_sink two_midi_fds failing_poll_pass
                  at_top)) = -99
  /\ outstanding
       (fst (loop_body false quiet_sink two_midi_fds failing_poll_pass
               at_top)) = 1%nat.
Proof.
  pose proof (pass_poll_fails false quiet_sink two_midi_fds failing_poll_pass
                at_top at_top_armed
                ltac:(right; unfold failing_poll_pass; simpl; lia))
    as (A & B & C & _).
  split; [exact A |]. split; [exact B | exact C].
Defined.

Lemma receive_loop_status_witness :
  fst (fst (receive_loop false quiet_sink two_midi_fds 7 9 decoder_init
              busy_pass [busy_pass; refused_pass])) = Some (-4)
  /\ -4 <> 0.
Proof.
  split; [reflexivity |].
  apply (receive_loop_status false quiet_sink two_midi_fds 7 9 decoder_init
           busy_pass [busy_pass; refused_pass] (-4)).
  reflexivity.
Defined.

End ReactorProps.

(** ** The reconnect loop *)

Module SupervisorProps.

Import Codec Usb Reactor Supervisor UsbFacts UsbProps ReactorProps.

Section Props.

Variable CC72_TEST : bool.
Variable midi_send_control_change : Z -> Z -> Z -> Z.
Variable midipolls : list pollfd.

Local Abbreviation main_loop :=
  (main_loop CC72_TEST midi_send_control_change midipolls).

(** One pass of the do-while body, by outcome: the trace of the pass and the
    status with which the loop test is reached, or the end of the trace
    inside receive_loop. *)
Lemma main_loop_pass (a : attempt_env) (rest : list attempt_env)
  (stat : Z) (info : usb_info) (d : decoder) (t : list main_event) :
  main_loop stat info d (a :: rest) = Some t ->
  (exists s info' cont,
     s < 0 /\ main_loop s info' d rest = Some cont
     /\ t = slept stat ++ Usb_connect s :: cont)
  \/ (exists s2 info' cont,
        s2 < 0 /\ main_loop s2 info' d rest = Some cont
        /\ t = slept stat ++ Usb_connect 0 :: Nocturn_init s2 :: cont)
  \/ t = slept stat ++ [Usb_connect 0; Nocturn_init 0; Receive_loop None]
  \/ (exists s3 info' d' cont,
        s3 <> 0 /\ main_loop s3 info' d' rest = Some cont
        /\ t = slept stat ++ Usb_connect 0 :: Nocturn_init 0
                 :: Receive_loop (Some s3) :: cont).
Proof.
  cbn [Supervisor.main_loop]. fold (slept stat).
  pose proof (usb_connect_nonpos (world a) info) as Hs.
  destruct (usb_connect (world a) info) as [s info1]. cbn [fst] in Hs.
  destruct (Z.ltb_spec s 0) as [Sneg | Spos].
  - destruct (Z.eqb_spec s 0); [lia |]. cbn [negb].
    destruct (main_loop s info1 d rest) as [cont |] eqn:E; [| discriminate].
    cbn [option_map]. intros [= <-]. left.
    exists s, info1, cont.
    repeat split; try assumption. now rewrite <- app_assoc.
  - assert (s = 0) by lia. subst s.
    destruct (nocturn_init_defined (interrupt_transfer a) info1)
      as (s2 & t2 & -> & Hs2).
    destruct (Z.ltb_spec s2 0) as [S2neg | S2pos].
    + destruct (Z.eqb_spec s2 0); [lia |]. cbn [negb].
      destruct (main_loop s2 info1 d rest) as [cont |] eqn:E;
        [| discriminate].
      cbn [option_map]. intros [= <-]. right. left.
      exists s2, info1, cont. repeat split; try assumption.
      now rewrite <- app_assoc.
    + assert (s2 = 0) by lia. subst s2.
      pose proof (receive_loop_exit CC72_TEST midi_send_control_change
                    midipolls (stack_resubmit a) (stack_stat a) d (first a)
                    (loop_envs a)) as Hr.
      destruct (receive_loop _ _ _ _ _ _ _ _) as [[r d'] t3].
      destruct r as [s3 |].
      * destruct Hr as [Hr _].
        destruct (Z.eqb_spec s3 0); [contradiction |]. cbn [negb].
        destruct (main_loop s3 info1 d' rest) as [cont |] eqn:E;
          [| discriminate].
        cbn [option_map]. intros [= <-]. right. right. right.
        exists s3, info1, d', cont. repeat split; try assumption.
        now rewrite <- app_assoc.
      * intros [= <-]. right. right. left. reflexivity.
Qed.

Lemma in_slept (stat : Z) (x : main_event) :
  In x (slept stat) -> x = Sleep 1.
Proof.
  unfold slept. destruct (negb (stat =? 0)); [| contradiction].
  intros [<- | []]. reflexivity.
Qed.

Lemma main_loop_no_return (envs : list attempt_env) :
  forall stat info d t,
  main_loop stat info d envs = Some t ->
  existsb is_return t = false.
Proof.
  induction envs as [| a rest IH]; intros stat info d t E.
  - cbn in E. injection E as <-. reflexivity.
  - assert (Sl : existsb is_return (slept stat) = false).
    { unfold slept. destruct (negb (stat =? 0)); reflexivity. }
    destruct (main_loop_pass a rest stat info d t E)
      as [(s' & i' & cont & _ & Ec & ->)
         | [(s2 & i' & cont & _ & Ec & ->)
           | [-> | (s3 & i' & d' & cont & _ & Ec & ->)]]];
      rewrite existsb_app, Sl; cbn [existsb is_return orb];
      try reflexivity; exact (IH _ _ _ _ Ec).
Qed.

(** X21: once the MIDI set-up has succeeded, main never returns: whatever
    the device and libusb do, every pass ends with a non-zero status, so the
    loop test never fails and the clean-up after the loop is not
    reached. *)
Theorem main_never_returns (envs : list attempt_env) (t : list main_event) :
  main CC72_TEST midi_send_control_change (Some midipolls) envs = Some t ->
  existsb is_return t = false.
Proof. unfold main. apply main_loop_no_return. Qed.

Lemma accepts_entry (stat s : Z) (r : list main_event) :
  accepts (entry_phase stat) (slept stat ++ Usb_connect s :: r) =
    match after_status s Connected with
    | Some q => accepts q r
    | None => false
    end.
Proof.
  unfold entry_phase, slept. destruct (stat =? 0); reflexivity.
Qed.

Lemma entry_phase_nonzero (s : Z) : s <> 0 -> entry_phase s = Backoff.
Proof.
  intros H. unfold entry_phase. now destruct (Z.eqb_spec s 0).
Qed.

Lemma after_status_neg (s : Z) (ok : phase) :
  s < 0 -> after_status s ok = Some Backoff.
Proof.
  intros H. unfold after_status. now destruct (Z.ltb_spec s 0); [| lia].
Qed.

Lemma main_loop_accepted (envs : list attempt_env) :
  forall stat info d t,
  main_loop stat info d envs = Some t ->
  accepts (entry_phase stat) t = true.
Proof.
  induction envs as [| a rest IH]; intros stat info d t E.
  - cbn in E. injection E as <-. reflexivity.
  - destruct (main_loop_pass a rest stat info d t E)
      as [(s' & i' & cont & Hs & Ec & ->)
         | [(s2 & i' & cont & Hs & Ec & ->)
           | [-> | (s3 & i' & d' & cont & Hs & Ec & ->)]]];
      rewrite accepts_entry.
    + rewrite (after_status_neg s' Connected Hs).
      rewrite <- (entry_phase_nonzero s') by lia. exact (IH _ _ _ _ Ec).
    + cbn [after_status Z.ltb Z.eqb Z.compare accepts next_phase].
      rewrite (after_status_neg s2 Initialised Hs).
      rewrite <- (entry_phase_nonzero s2) by lia. exact (IH _ _ _ _ Ec).
    + reflexivity.
    + cbn [after_status Z.ltb Z.eqb Z.compare accepts next_phase].
      destruct (Z.eqb_spec s3 0); [contradiction |].
      rewrite <- (entry_phase_nonzero s3) by assumption.
      exact (IH _ _ _ _ Ec).
Qed.

(** X22: every trace of main follows the life cycle connect - bring-up -
    polling loop: the first call is a connection attempt; a failed
    attempt, a failed bring-up and the return of the polling loop are each
    followed by the sleep of one second and then by the next attempt;
    nocturn_init is called only right after a successful attempt, and
    receive_loop only right after a bring-up that returned 0. *)
Theorem main_life_cycle (envs : list attempt_env) (t : list main_event) :
  main CC72_TEST midi_send_control_change (Some midipolls) envs = Some t ->
  accepts Fresh t = true.
Proof.
  unfold main. intros E.
  exact (main_loop_accepted envs 0 initial_info decoder_init t E).
Qed.

End Props.

Lemma main_never_returns_witness :
  existsb is_return
    [Usb_connect (-4); Sleep 1; Usb_connect 0; Nocturn_init 0;
     Receive_loop (Some (-4)); Sleep 1; Usb_connect (-4)] = false.
Proof.
  apply (main_never_returns false quiet_sink two_midi_fds
           [unplugged;
            {| world := plugged_world 0x81 0x02;
               interrupt_transfer := fun _ _ => 0;
               stack_resubmit := 0; stack_stat := 0;
               first := busy_pass; loop_envs := [refused_pass] |};
            unplugged]).
  reflexivity.
Defined.

Lemma main_life_cycle_witness :
  accepts Fresh
    [Usb_connect 0; Nocturn_init (-7); Sleep 1; Usb_connect (-4);
     Sleep 1; Usb_connect 0; Nocturn_init 0; Receive_loop None] = true.
Proof.
  apply (main_life_cycle false quiet_sink two_midi_fds
           [plugged_mute; unplugged; plugged]).
  reflexivity.
Defined.

End SupervisorProps.
